(** * constexpr_wrapper / constexpr_t: a shallow embedding

    Two parts:
    - [CwLiteral]: the literal front-end of [constexpr_wrapper.hpp]
      ([__cw_prepare_array], [__cw_parse] and the literal operators
      [cw], [CW], [w], [W]), together with the lexical split of an integer
      user-defined literal into the characters passed to the literal operator
      template and its ud-suffix.
    - [Protocol]: compile-time values, the types [constexpr_wrapper<X, T>]
      (variant B) and [constexpr_t<X>] (variant A), the capability predicate
      [constexpr_value], and the operator overloads of both headers.

    The data model is LP64: [long] has 64 bits. *)

From Stdlib Require Import ZArith List Ascii String Bool Lia.
Import ListNotations.
Local Open Scope Z_scope.

(** ** Integer types used by the literal ladder and the operator model *)

Inductive ity := SChar | Short | Int | Long | LongLong | UInt | ULong | ULongLong.

Definition ity_eqb (a b : ity) : bool :=
  match a, b with
  | SChar, SChar | Short, Short | Int, Int | Long, Long | LongLong, LongLong
  | UInt, UInt | ULong, ULong | ULongLong, ULongLong => true
  | _, _ => false
  end.

Definition ity_signed (k : ity) : bool :=
  match k with
  | SChar | Short | Int | Long | LongLong => true
  | _ => false
  end.

Definition ity_bits (k : ity) : Z :=
  match k with
  | SChar => 8 | Short => 16 | Int | UInt => 32
  | Long | LongLong | ULong | ULongLong => 64
  end.

(** [std::numeric_limits<k>::max()] and [min()]. *)
Definition ity_max (k : ity) : Z :=
  if ity_signed k then 2 ^ (ity_bits k - 1) - 1 else 2 ^ ity_bits k - 1.

Definition ity_min (k : ity) : Z :=
  if ity_signed k then - 2 ^ (ity_bits k - 1) else 0.

Definition ull_max : Z := ity_max ULongLong.

Module CwLiteral.

(** ** Characters *)

Definition code (c : ascii) : nat := nat_of_ascii c.

Definition digit_sep : ascii := ascii_of_nat 39.

Definition is_digit_sep (c : ascii) : bool := Ascii.eqb c digit_sep.

Definition chr_between (lo hi c : ascii) : bool :=
  (code lo <=? code c)%nat && (code c <=? code hi)%nat.

Definition is_dec (c : ascii) : bool := chr_between "0" "9" c.
Definition is_oct (c : ascii) : bool := chr_between "0" "7" c.
Definition is_bin (c : ascii) : bool := chr_between "0" "1" c.
Definition is_hex (c : ascii) : bool :=
  chr_between "0" "9" c || chr_between "a" "f" c || chr_between "A" "F" c.

Fixpoint chars_eqb (l l' : list ascii) : bool :=
  match l, l' with
  | [], [] => true
  | c :: l, c' :: l' => Ascii.eqb c c' && chars_eqb l l'
  | _, _ => false
  end.

(** ** [__cw_prepare_array]: drop the digit separators *)

Definition cw_prepare_array (chars : list ascii) : list ascii :=
  filter (fun c => negb (is_digit_sep c)) chars.

(** ** [__cw_parse] *)

(** [__base]: ['0'] followed by at least two more characters selects a
    prefix; [x] or [X] is hexadecimal, [b] binary, anything else octal. *)
Definition cw_base (arr : list ascii) : Z :=
  match arr with
  | c0 :: c1 :: _ :: _ =>
      if Ascii.eqb c0 "0" then
        if Ascii.eqb c1 "x" || Ascii.eqb c1 "X" then 16
        else if Ascii.eqb c1 "b" then 2
        else 8
      else 10
  | _ => 10
  end.

Definition cw_offset (base : Z) : nat :=
  if base =? 10 then 0 else if base =? 8 then 1 else 2.

(** The range [[__arr.begin() + __offset, __end)]; for base 16 [__end]
    stops one before the end (the [c]/[C] of the [w]/[W] suffix). *)
Definition cw_range (arr : list ascii) (base : Z) : list ascii :=
  let tl := skipn (cw_offset base) arr in
  if base =? 16 then removelast tl else tl.

(** The lambda of [__valid_chars]. *)
Definition cw_valid_char (base : Z) (c : ascii) : bool :=
  if base =? 16 then
    chr_between "a" "f" c || chr_between "A" "F" c || chr_between "0" "9" c
  else (code "0" <=? code c)%nat && (Z.of_nat (code c) <? Z.of_nat (code "0") + base).

(** [unsigned __nextdigit]: the [int] difference converted to a 32-bit
    [unsigned]. *)
Definition to_unsigned (z : Z) : Z := z mod 2 ^ 32.

Definition cw_nextdigit (base : Z) (c : ascii) : Z :=
  let n := Z.of_nat (code c) in
  if base =? 16 then
    if n >=? 97 then to_unsigned (n - 97 + 10)
    else if n >=? 65 then to_unsigned (n - 65 + 10)
    else to_unsigned (n - 48)
  else to_unsigned (n - 48).

(** The loop of the lambda computing [__x]; [0] is returned on overflow. *)
Fixpoint cw_accumulate (base x : Z) (ds : list ascii) : Z :=
  match ds with
  | [] => x
  | c :: ds' =>
      let d := cw_nextdigit base c in
      if x >? ull_max / base then 0
      else
        let x1 := x * base in
        if x1 >? ull_max - d then 0
        else cw_accumulate base (x1 + d) ds'
  end.

(** The [if constexpr] ladder choosing the result type. *)
Definition cw_ladder (x : Z) : ity :=
  if x <=? ity_max SChar then SChar
  else if x <=? ity_max Short then Short
  else if x <=? ity_max Int then Int
  else if x <=? ity_max Long then Long
  else if x <=? ity_max LongLong then LongLong
  else ULongLong.

(** Build-time diagnostics.  [EndNotConstant] is the declaration
    [constexpr auto __end = __arr.end() - ...]: [__arr] is a local variable
    of [__cw_parse] (automatic storage), and a pointer into it is not a
    permitted result of a constant expression, so the [constexpr] variable
    [__end] is ill-formed whatever the pack.  [NoArrayEquality] is the
    ill-formed condition [__arr == std::array {'0'}]: [std::array]'s
    [operator==] compares arrays of one and the same size only, so there is
    no viable [operator==] once [__arr] has a size other than 1. *)
Inductive diag :=
  | EndNotConstant | InvalidCharacters | NoArrayEquality | OutOfRange | LexError
  | NoLiteralOperator.

Inductive parsed :=
  | Parsed (k : ity) (v : Z)
  | Rejected (ds : list diag).

(** The checks of the body of [__cw_parse] that fail, in source order: the
    declaration of [__end], the [static_assert (__valid_chars)], the
    conditions of the [if constexpr] chain of common values, and the
    [static_assert (__x != 0)].  The chain returns in its taken branch, but
    the statements that follow it are not in an [else] branch: they are
    instantiated for every pack. *)
Definition cw_checks (valid : bool) (arr : list ascii) (x : Z) : list diag :=
  EndNotConstant ::
  (if valid then [] else [InvalidCharacters]) ++
  (if Nat.eqb (List.length arr) 1 then [] else [NoArrayEquality]) ++
  (if x =? 0 then [OutOfRange] else []).

(** The value returned when no check fails. *)
Definition cw_result (arr : list ascii) (x : Z) : parsed :=
  if chars_eqb arr ["0"%char] then Parsed SChar 0
  else if chars_eqb arr ["1"%char] then Parsed SChar 1
  else if chars_eqb arr ["2"%char] then Parsed SChar 2
  else Parsed (cw_ladder x) x.

(** [__cw_parse<_Chars...>()]. *)
Definition cw_parse (chars : list ascii) : parsed :=
  let arr := cw_prepare_array chars in
  let base := cw_base arr in
  let range := cw_range arr base in
  let x := cw_accumulate base 0 range in
  match cw_checks (forallb (cw_valid_char base) range) arr x with
  | [] => cw_result arr x
  | errs => Rejected errs
  end.

(** ** Lexical split of a user-defined integer literal

    The integer-literal part is scanned greedily (the digits of the detected
    base and separators); the rest is the ud-suffix.  This is why a
    hexadecimal [0xFFcw] reaches the operator [w] with the characters
    [0xFFc]. *)

Fixpoint span (p : ascii -> bool) (l : list ascii) : list ascii * list ascii :=
  match l with
  | [] => ([], [])
  | c :: l' => if p c then let (a, b) := span p l' in (c :: a, b) else ([], l)
  end.

Fixpoint no_double_sep (l : list ascii) : bool :=
  match l with
  | c1 :: ((c2 :: _) as l') => negb (is_digit_sep c1 && is_digit_sep c2) && no_double_sep l'
  | _ => true
  end.

(** A digit sequence with separators: starts and ends with a digit, no two
    adjacent separators. *)
Definition digit_seq_ok (p : ascii -> bool) (ds : list ascii) : bool :=
  match ds with
  | [] => false
  | c :: _ =>
      p c && p (last ds c) && forallb (fun c => p c || is_digit_sep c) ds && no_double_sep ds
  end.

Definition is_x (c : ascii) : bool := Ascii.eqb c "x" || Ascii.eqb c "X".
Definition is_b (c : ascii) : bool := Ascii.eqb c "b" || Ascii.eqb c "B".

Definition lex_dec_oct (s : list ascii) : option (list ascii * list ascii) :=
  let (ds, sfx) := span (fun c => is_dec c || is_digit_sep c) s in
  match ds with
  | [] => None
  | c :: _ =>
      if Ascii.eqb c "0" then (if digit_seq_ok is_oct ds then Some (ds, sfx) else None)
      else if digit_seq_ok is_dec ds then Some (ds, sfx) else None
  end.

Definition lex_prefixed (p : ascii -> bool) (c0 c1 : ascii) (rest : list ascii)
  : option (list ascii * list ascii) :=
  let (ds, sfx) := span (fun c => p c || is_digit_sep c) rest in
  if digit_seq_ok p ds then Some (c0 :: c1 :: ds, sfx) else None.

(** Split a literal token into (integer-literal characters, ud-suffix). *)
Definition lex_number (s : list ascii) : option (list ascii * list ascii) :=
  match s with
  | c0 :: c1 :: rest =>
      if Ascii.eqb c0 "0" && is_x c1 then lex_prefixed is_hex c0 c1 rest
      else if Ascii.eqb c0 "0" && is_b c1 then lex_prefixed is_bin c0 c1 rest
      else lex_dec_oct s
  | _ => lex_dec_oct s
  end.

(** ** Lexical split of a user-defined floating literal

    A token such as [1e5cw] or [0x1p3cw] is a floating literal followed by
    the ud-suffix; the literal operator template then receives the
    characters of the floating literal ([1e5], [0x1p3]).  A decimal floating
    literal has a fraction ([.]) or an exponent ([e]/[E]); a hexadecimal one
    always has a binary exponent ([p]/[P]). *)

Definition is_e (c : ascii) : bool := Ascii.eqb c "e" || Ascii.eqb c "E".
Definition is_p (c : ascii) : bool := Ascii.eqb c "p" || Ascii.eqb c "P".
Definition is_sign (c : ascii) : bool := Ascii.eqb c "+" || Ascii.eqb c "-".
Definition is_dot (c : ascii) : bool := Ascii.eqb c ".".

(** A digit sequence that may be empty. *)
Definition opt_seq_ok (p : ascii -> bool) (ds : list ascii) : bool :=
  match ds with [] => true | _ => digit_seq_ok p ds end.

(** An exponent part: the exponent letter, an optional sign and a decimal
    digit sequence. *)
Definition lex_exponent (is_exp : ascii -> bool) (s : list ascii)
  : option (list ascii * list ascii) :=
  match s with
  | c :: rest =>
      if is_exp c then
        let (sg, rest') :=
          match rest with
          | c' :: r => if is_sign c' then ([c'], r) else ([], rest)
          | [] => ([], [])
          end in
        let (ds, sfx) := span (fun c => is_dec c || is_digit_sep c) rest' in
        if digit_seq_ok is_dec ds then Some (c :: sg ++ ds, sfx) else None
      else None
  | [] => None
  end.

(** The significand (digits [p]) and the exponent of a floating literal;
    [exp_required] for the hexadecimal ones. *)
Definition lex_float_body (p is_exp : ascii -> bool) (exp_required : bool) (s : list ascii)
  : option (list ascii * list ascii) :=
  let (ip, r1) := span (fun c => p c || is_digit_sep c) s in
  match r1 with
  | c :: r2 =>
      if is_dot c then
        let (fp, r3) := span (fun c => p c || is_digit_sep c) r2 in
        if negb (List.length (ip ++ fp) =? 0)%nat && opt_seq_ok p ip && opt_seq_ok p fp then
          match lex_exponent is_exp r3 with
          | Some (ex, sfx) => Some (ip ++ c :: fp ++ ex, sfx)
          | None => if exp_required then None else Some (ip ++ [c] ++ fp, r3)
          end
        else None
      else if digit_seq_ok p ip then
        match lex_exponent is_exp r1 with
        | Some (ex, sfx) => Some (ip ++ ex, sfx)
        | None => None
        end
      else None
  | [] => None
  end.

(** Split a floating literal token into (floating-literal characters,
    ud-suffix); [None] when the token is not a floating literal. *)
Definition lex_float (s : list ascii) : option (list ascii * list ascii) :=
  match s with
  | c0 :: c1 :: rest =>
      if Ascii.eqb c0 "0" && is_x c1 then
        match lex_float_body is_hex is_p true rest with
        | Some (num, sfx) => Some (c0 :: c1 :: num, sfx)
        | None => None
        end
      else lex_float_body is_dec is_e false s
  | _ => lex_float_body is_dec is_e false s
  end.


(** ** The digit sequence as the spec reads it

    [0x]/[0X] selects base 16, [0b]/[0B] base 2, a leading [0] followed by
    more characters base 8, otherwise base 10; the digits are the characters
    after the prefix with the separators removed. *)

Definition spec_base (d : list ascii) : Z :=
  match d with
  | c0 :: c1 :: _ =>
      if Ascii.eqb c0 "0" then (if is_x c1 then 16 else if is_b c1 then 2 else 8) else 10
  | _ => 10
  end.

Definition spec_prefix_len (base : Z) : nat :=
  if base =? 10 then 0 else if base =? 8 then 1 else 2.

Definition spec_digits (d : list ascii) : list ascii :=
  cw_prepare_array (skipn (spec_prefix_len (spec_base d)) d).

Definition spec_digit_ok (base : Z) (c : ascii) : bool :=
  if base =? 16 then is_hex c
  else if base =? 8 then is_oct c
  else if base =? 2 then is_bin c
  else is_dec c.

Definition spec_digit_value (c : ascii) : Z :=
  let n := Z.of_nat (code c) in
  if is_dec c then n - 48 else if chr_between "a" "f" c then n - 87 else n - 55.

Definition horner (dv : ascii -> Z) (base x : Z) (ds : list ascii) : Z :=
  fold_left (fun acc c => acc * base + dv c) ds x.

Definition spec_value (d : list ascii) : Z :=
  horner spec_digit_value (spec_base d) 0 (spec_digits d).

Definition has_invalid_digit (d : list ascii) : bool :=
  existsb (fun c => negb (spec_digit_ok (spec_base d) c)) (spec_digits d).



(** ** The literal operators of [std::literals] *)

(** The requires-clause of [operator""w] / [operator""W]. *)
Definition w_requires (last_char : ascii) (chars : list ascii) : bool :=
  match chars with
  | c0 :: c1 :: _ :: _ => Ascii.eqb c0 "0" && is_x c1 && Ascii.eqb (last chars c0) last_char
  | _ => false
  end.

Definition sfx_cw : list ascii := list_ascii_of_string "cw".
Definition sfx_CW : list ascii := list_ascii_of_string "CW".
Definition sfx_w : list ascii := list_ascii_of_string "w".
Definition sfx_W : list ascii := list_ascii_of_string "W".

(** The call of the literal operator template [operator""sfx<num...>()]. *)
Definition literal_operator (num sfx : list ascii) : parsed :=
  if chars_eqb sfx sfx_cw || chars_eqb sfx sfx_CW then cw_parse num
  else if chars_eqb sfx sfx_w then
    if w_requires "c" num then cw_parse num else Rejected [NoLiteralOperator]
  else if chars_eqb sfx sfx_W then
    if w_requires "C" num then cw_parse num else Rejected [NoLiteralOperator]
  else Rejected [NoLiteralOperator].

(** The value of the literal token [s] (e.g. ["0xFFFFcw"]): the [X] of the
    resulting [std::cw<X>], or a build-time diagnostic.  A user-defined
    floating literal, then a user-defined integer literal. *)
Definition literal (s : list ascii) : parsed :=
  match lex_float s with
  | Some (num, sfx) => literal_operator num sfx
  | None =>
      match lex_number s with
      | None => Rejected [LexError]
      | Some (num, sfx) => literal_operator num sfx
      end
  end.

Definition lit (s : string) : parsed := literal (list_ascii_of_string s).

End CwLiteral.

(** ** The operator protocol of both headers *)

Module Protocol.

(** Compile-time values (the template argument [_Xp]) and the types of the
    program. [VPtr t o] is [&o] for a named object [o] of type [t];
    [VParamAddr x] is the address of the template parameter object of value
    [x], which is what [&_Yp] and [std::addressof(_Xp)] give for a class-type
    parameter. A class object is its class name with its data members. *)
Inductive cval :=
  | VInt (k : ity) (z : Z)
  | VBool (b : bool)
  | VOrd (c : comparison)                 (* std::strong_ordering *)
  | VPtr (pt : cty) (obj : string)
  | VParamAddr (x : cval)
  | VObj (cls : string) (fields : list (string * Z))
with cty :=
  | TInt (k : ity)
  | TBool
  | TOrd                                  (* std::strong_ordering *)
  | TPtr (pt : cty)
  | TClass (cls : string)
  | TWrapper (x : cval) (t : cty)         (* constexpr_wrapper<x, t> (variant B) *)
  | TConstT (x : cval)                    (* constexpr_t<x> (variant A) *)
  | TDerived (name : string) (base : cty). (* struct name : base {} *)

(** The two headers: [constexpr_t.hpp] (A) and [constexpr_wrapper.hpp] (B). *)
Inductive variant := VarA | VarB.

Fixpoint type_of (v : cval) : cty :=
  match v with
  | VInt k _ => TInt k
  | VBool _ => TBool
  | VOrd _ => TOrd
  | VPtr t _ => TPtr t
  | VParamAddr x => TPtr (type_of x)
  | VObj c _ => TClass c
  end.

Fixpoint fields_eqb (a b : list (string * Z)) : bool :=
  match a, b with
  | [], [] => true
  | (m, z) :: a', (m', z') :: b' => String.eqb m m' && (z =? z') && fields_eqb a' b'
  | _, _ => false
  end.

Definition comparison_eqb (c d : comparison) : bool :=
  match c, d with
  | Eq, Eq | Lt, Lt | Gt, Gt => true
  | _, _ => false
  end.

(** Template-argument equivalence of values and identity of types. *)
Fixpoint cval_eqb (a b : cval) {struct a} : bool :=
  match a, b with
  | VInt k z, VInt k' z' => ity_eqb k k' && (z =? z')
  | VBool x, VBool y => Bool.eqb x y
  | VOrd c, VOrd d => comparison_eqb c d
  | VPtr t o, VPtr t' o' => cty_eqb t t' && String.eqb o o'
  | VParamAddr x, VParamAddr y => cval_eqb x y
  | VObj c fs, VObj c' fs' => String.eqb c c' && fields_eqb fs fs'
  | _, _ => false
  end
with cty_eqb (a b : cty) {struct a} : bool :=
  match a, b with
  | TInt k, TInt k' => ity_eqb k k'
  | TBool, TBool | TOrd, TOrd => true
  | TPtr t, TPtr t' => cty_eqb t t'
  | TClass c, TClass c' => String.eqb c c'
  | TWrapper x t, TWrapper x' t' => cval_eqb x x' && cty_eqb t t'
  | TConstT x, TConstT x' => cval_eqb x x'
  | TDerived n b, TDerived n' b' => String.eqb n n' && cty_eqb b b'
  | _, _ => false
  end.

(** The outcome of evaluating a C++ expression: a value, an expression that
    compiles but has undefined behaviour (it is then not a constant
    expression), or an ill-formed expression. *)
Inductive res := RVal (v : cval) | RUndef | RIll.

Definition res_bind (r : res) (f : cval -> res) : res :=
  match r with RVal v => f v | RUndef => RUndef | RIll => RIll end.

Inductive unop :=
  | UPlus | UNeg | UCompl | UNot | UAddr | UDeref
  | UPreInc | UPostInc | UPreDec | UPostDec.

Inductive binop :=
  | BAdd | BSub | BMul | BDiv | BMod | BAnd | BOr | BXor | BLAnd | BLOr
  | BComma | BShl | BShr | BEq | BNe | BLt | BLe | BGt | BGe | BCmp3
  | BArrowStar
  | BAddAssign | BSubAssign | BMulAssign | BDivAssign | BModAssign
  | BAndAssign | BOrAssign | BXorAssign | BShlAssign | BShrAssign.

(** A user-defined operator is a (const) member or a non-member (a hidden
    friend, found by argument-dependent lookup). *)
Inductive opkind := Member | NonMember.

(** What the program declares about a class type. *)
Record cls_info := mk_cls {
  cs_structural : bool;                            (* usable as [auto] parameter *)
  cs_arrow : option (cval -> cval);                (* [operator->() const] *)
  cs_call : cval -> list cval -> res;              (* [X(args...)] *)
  cs_index : cval -> list cval -> res;             (* [X[args...]] *)
  cs_unop : unop -> option (opkind * (cval -> res));
  cs_binop : binop -> option (opkind * (cval -> cval -> res))
}.

(** *** Integer arithmetic (LP64, two's complement, C++20) *)

Definition in_range (k : ity) (z : Z) : bool := (ity_min k <=? z) && (z <=? ity_max k).

(** Conversion to [k] modulo [2^N]. *)
Definition wrap (k : ity) (z : Z) : Z :=
  (z - ity_min k) mod 2 ^ ity_bits k + ity_min k.

(** Integral promotion. *)
Definition promote (k : ity) : ity :=
  match k with SChar | Short => Int | _ => k end.

Definition ity_rank (k : ity) : Z :=
  match k with
  | SChar => 1 | Short => 2 | Int | UInt => 3 | Long | ULong => 4
  | LongLong | ULongLong => 5
  end.

Definition make_unsigned (k : ity) : ity :=
  match k with Int => UInt | Long => ULong | LongLong => ULongLong | _ => k end.

(** The usual arithmetic conversions on two integer types. *)
Definition common (k1 k2 : ity) : ity :=
  let a := promote k1 in
  let b := promote k2 in
  if ity_eqb a b then a
  else if Bool.eqb (ity_signed a) (ity_signed b) then
    (if ity_rank a <? ity_rank b then b else a)
  else
    let s := if ity_signed a then a else b in
    let u := if ity_signed a then b else a in
    if ity_rank s <=? ity_rank u then u
    else if ity_bits u <? ity_bits s then s
    else make_unsigned s.

(** An integral operand after promotion; [bool] promotes to [int]. *)
Definition arith (v : cval) : option (ity * Z) :=
  match v with
  | VInt k z => Some (promote k, z)
  | VBool b => Some (Int, Z.b2z b)
  | _ => None
  end.

(** Contextual conversion to [bool]. *)
Definition truth (v : cval) : option bool :=
  match v with
  | VInt _ z => Some (negb (z =? 0))
  | VBool b => Some b
  | VPtr _ _ | VParamAddr _ => Some true
  | _ => None
  end.

Definition is_bool (v : cval) : bool :=
  match v with VBool _ => true | _ => false end.

Definition is_pointer (v : cval) : bool :=
  match v with VPtr _ _ | VParamAddr _ => true | _ => false end.

(** The result of an arithmetic operation in type [k]: signed overflow is
    undefined, unsigned arithmetic wraps. *)
Definition checked (k : ity) (r : Z) : res :=
  if ity_signed k then (if in_range k r then RVal (VInt k r) else RUndef)
  else RVal (VInt k (wrap k r)).

(** The built-in binary operators on scalar operands [a op b], where [a]
    is not a modifiable lvalue (a template parameter, or a prvalue from the
    conversion operator): the compound assignments are then ill-formed
    (see [compound_assign] for a modifiable left operand); [->*] needs a
    pointer to member. *)
Definition scalar_binop (op : binop) (a b : cval) : res :=
  match op with
  | BComma => RVal b
  | BLAnd | BLOr =>
      match truth a, truth b with
      | Some x, Some y =>
          RVal (VBool (match op with BLAnd => x && y | _ => x || y end))
      | _, _ => RIll
      end
  | BShl | BShr =>
      match arith a, arith b with
      | Some (k1, z1), Some (_, z2) =>
          if (0 <=? z2) && (z2 <? ity_bits k1) then
            match op with
            | BShl => RVal (VInt k1 (wrap k1 (Z.shiftl z1 z2)))
            | _ => RVal (VInt k1 (Z.shiftr z1 z2))
            end
          else RUndef
      | _, _ => RIll
      end
  | BAdd | BSub | BMul | BDiv | BMod | BAnd | BOr | BXor
  | BEq | BNe | BLt | BLe | BGt | BGe | BCmp3 =>
      match arith a, arith b with
      | Some (k1, z1), Some (k2, z2) =>
          let k := common k1 k2 in
          let x := wrap k z1 in
          let y := wrap k z2 in
          match op with
          | BAdd => checked k (x + y)
          | BSub => checked k (x - y)
          | BMul => checked k (x * y)
          | BDiv => if y =? 0 then RUndef else checked k (Z.quot x y)
          | BMod =>
              if y =? 0 then RUndef
              else if in_range k (Z.quot x y) then RVal (VInt k (Z.rem x y)) else RUndef
          | BAnd => RVal (VInt k (wrap k (Z.land x y)))
          | BOr => RVal (VInt k (wrap k (Z.lor x y)))
          | BXor => RVal (VInt k (wrap k (Z.lxor x y)))
          | BEq => RVal (VBool (x =? y))
          | BNe => RVal (VBool (negb (x =? y)))
          | BLt => RVal (VBool (x <? y))
          | BLe => RVal (VBool (x <=? y))
          | BGt => RVal (VBool (y <? x))
          | BGe => RVal (VBool (y <=? x))
          | _ =>
              (* [<=>]: a [bool] against a non-[bool], or a narrowing
                 conversion of an operand, is ill-formed *)
              if xorb (is_bool a) (is_bool b) then RIll
              else if (x =? z1) && (y =? z2) then RVal (VOrd (Z.compare x y))
              else RIll
          end
      | _, _ =>
          match op with
          | BEq => if is_pointer a && is_pointer b then RVal (VBool (cval_eqb a b)) else RIll
          | BNe => if is_pointer a && is_pointer b then RVal (VBool (negb (cval_eqb a b))) else RIll
          | _ => RIll
          end
      end
  | _ => RIll
  end.

(** [a op= b] for a modifiable lvalue [a] of integer or [bool] type:
    [a = a op b], the result converted to the type of [a]. *)
Definition compound_base (op : binop) : option binop :=
  match op with
  | BAddAssign => Some BAdd | BSubAssign => Some BSub | BMulAssign => Some BMul
  | BDivAssign => Some BDiv | BModAssign => Some BMod | BAndAssign => Some BAnd
  | BOrAssign => Some BOr | BXorAssign => Some BXor | BShlAssign => Some BShl
  | BShrAssign => Some BShr
  | _ => None
  end.

(** *** Initialisation, concepts and the wrapper types *)

Definition is_some {A : Type} (o : option A) : bool :=
  match o with Some _ => true | None => false end.

(** [T v{x}]: list-initialisation, which refuses narrowing conversions of a
    constant that does not fit.  A class type is initialised here from an
    object of the same class only (converting constructors are not part of
    this table). *)
Definition brace_init (t : cty) (x : cval) : option cval :=
  match t, x with
  | TInt k, VInt _ z => if in_range k z then Some (VInt k z) else None
  | TInt k, VBool b => Some (VInt k (Z.b2z b))
  | TBool, VBool b => Some x
  | TBool, VInt _ z => if (z =? 0) || (z =? 1) then Some (VBool (z =? 1)) else None
  | TOrd, VOrd _ => Some x
  | TPtr t, VPtr t' _ => if cty_eqb t t' then Some x else None
  | TPtr t, VParamAddr y => if cty_eqb t (type_of y) then Some x else None
  | TClass c, VObj c' _ => if String.eqb c c' then Some x else None
  | _, _ => None
  end.

(** [T v = x;] (as in [return _Xp;] in [operator value_type()]): an implicit
    conversion, integral conversions taken modulo [2^N]. *)
Definition copy_init (t : cty) (x : cval) : option cval :=
  match t, x with
  | TInt k, VInt _ z => Some (VInt k (wrap k z))
  | TBool, VInt _ z => Some (VBool (negb (z =? 0)))
  | _, _ => brace_init t x
  end.

Definition compound_assign (op : binop) (a b : cval) : res :=
  match compound_base op, a with
  | Some bop, (VInt _ _ | VBool _) =>
      res_bind (scalar_binop bop a b) (fun v =>
        match copy_init (type_of a) v with Some w => RVal w | None => RIll end)
  | _, _ => RIll
  end.

(** [constexpr_wrapper<x>] or [constexpr_t<x>], the second parameter of
    [constexpr_wrapper] defaulted to [remove_cvref_t<decltype(x)>]. *)
Definition cw_of (var : variant) (x : cval) : cty :=
  match var with
  | VarA => TConstT x
  | VarB => TWrapper x (type_of x)
  end.

Definition is_wrapper (var : variant) (t : cty) : bool :=
  match var, t with
  | VarB, TWrapper _ _ | VarA, TConstT _ => true
  | _, _ => false
  end.

Definition is_class_type (t : cty) : bool :=
  match t with
  | TClass _ | TWrapper _ _ | TConstT _ | TDerived _ _ => true
  | _ => false
  end.

(** [T::value] of a type: the [static constexpr value_type value{_Xp}] of
    the wrappers, inherited by derived classes. *)
Fixpoint static_value (t : cty) : option cval :=
  match t with
  | TWrapper x u => brace_init u x
  | TConstT x => Some x
  | TDerived _ b => static_value b
  | _ => None
  end.

(** The template argument [_Xp] of the wrapper base. *)
Fixpoint param_value (t : cty) : option cval :=
  match t with
  | TWrapper x _ | TConstT x => Some x
  | TDerived _ b => param_value b
  | _ => None
  end.

(** The class itself and its bases. *)
Fixpoint bases (t : cty) : list cty :=
  match t with
  | TDerived _ b => t :: bases b
  | _ => [t]
  end.

(** [std::derived_from<D, B>]. *)
Definition derived_from (d b : cty) : bool :=
  is_class_type d && existsb (cty_eqb b) (bases d).

(** Classes of value types whose hidden friends argument-dependent lookup
    finds for an operand of type [t]: the class itself, and the class of a
    type template argument of [t].  [constexpr_t<x>] has no type parameter,
    so it associates none; a class derived from a wrapper associates its
    bases, but not the template arguments of its bases. *)
Definition adl_classes (t : cty) : list string :=
  match t with
  | TClass c => [c]
  | TWrapper _ (TClass c) => [c]
  | _ => []
  end.

Section Program.

(** The classes of the program, and the [constexpr] objects a pointer
    constant may point to. *)
Variable classes : string -> option cls_info.
Variable objects : string -> option cval.

(** A structural type can be the type of an [auto] template parameter;
    [std::strong_ordering] is not structural in libstdc++. *)
Definition structural (x : cval) : bool :=
  match x with
  | VOrd _ => false
  | VObj c _ => match classes c with Some ci => cs_structural ci | None => false end
  | _ => true
  end.

(** The specialisation is a valid type: [_Xp] is a valid template argument
    and [value_type value{_Xp}] is well-formed. *)
Fixpoint valid_type (t : cty) : bool :=
  match t with
  | TWrapper x u => structural x && is_some (brace_init u x)
  | TConstT x => structural x
  | TDerived _ b => valid_type b
  | _ => true
  end.

(** [constexpr_value<T>]: [requires { typename constexpr_wrapper<T::value>; }]
    (B), [typename constexpr_t<T::value>] (A). *)
Definition constexpr_value (var : variant) (t : cty) : bool :=
  match static_value t with
  | Some v => valid_type (cw_of var v)
  | None => false
  end.

(** [__any_constexpr_wrapper<T>] (B), [__any_constexpr_t<T>] (A):
    [derived_from<T, constexpr_wrapper<T::value>>], false where that type is
    not well-formed. *)
Definition any_constexpr_wrapper (var : variant) (t : cty) : bool :=
  match static_value t with
  | Some v => valid_type (cw_of var v) && derived_from t (cw_of var v)
  | None => false
  end.

(** [__lhs_constexpr_wrapper<T, This>] (B), [__lhs_constexpr_t<T, This>] (A). *)
Definition lhs_constexpr_wrapper (var : variant) (t this : cty) : bool :=
  constexpr_value var t && (derived_from t this || negb (any_constexpr_wrapper var t)).

(** *** Operators of the value type *)

Definition class_binop (c : string) (op : binop) (members : bool)
  : option (cval -> cval -> res) :=
  match classes c with
  | Some ci =>
      match cs_binop ci op with
      | Some (Member, f) => if members then Some f else None
      | Some (NonMember, f) => Some f
      | None => None
      end
  | None => None
  end.

(** [a op b] on two values: an operator of the class of a class operand
    (a member only for the left operand), the built-in one otherwise. *)
Definition native_binop (op : binop) (a b : cval) : res :=
  let user c members :=
    match class_binop c op members with
    | Some f => f a b
    | None => match op with BComma => RVal b | _ => RIll end
    end in
  match a, b with
  | VObj c _, _ => user c true
  | _, VObj c _ => user c false
  | _, _ => scalar_binop op a b
  end.

(** The built-in unary operators on a scalar prvalue: [&], [++] and [--]
    need an lvalue. *)
Definition scalar_unop (op : unop) (a : cval) : res :=
  match op with
  | UPlus =>
      match arith a with
      | Some (k, z) => RVal (VInt k z)
      | None => if is_pointer a then RVal a else RIll
      end
  | UNeg => match arith a with Some (k, z) => checked k (- z) | None => RIll end
  | UCompl => match arith a with Some (k, z) => RVal (VInt k (wrap k (Z.lnot z))) | None => RIll end
  | UNot => match truth a with Some b => RVal (VBool (negb b)) | None => RIll end
  | UDeref =>
      match a with
      | VPtr _ o => match objects o with Some v => RVal v | None => RIll end
      | VParamAddr x => RVal x
      | _ => RIll
      end
  | _ => RIll
  end.

(** [op x] for a template parameter [x]: a class operand is a const lvalue
    (the template parameter object), a scalar one a prvalue. *)
Definition native_unop (op : unop) (x : cval) : res :=
  match x with
  | VObj c _ =>
      match classes c with
      | Some ci =>
          match cs_unop ci op with
          | Some (_, f) => f x
          | None => match op with UAddr => RVal (VParamAddr x) | _ => RIll end
          end
      | None => RIll
      end
  | _ => scalar_unop op x
  end.

Definition invoke (x : cval) (args : list cval) : res :=
  match x with
  | VObj c _ => match classes c with Some ci => cs_call ci x args | None => RIll end
  | _ => RIll
  end.

Definition subscript (x : cval) (args : list cval) : res :=
  match x with
  | VObj c _ => match classes c with Some ci => cs_index ci x args | None => RIll end
  | _ => RIll
  end.

(** *** Overload resolution at a use of the wrappers *)

(** An operand: its type, its value where it is an ordinary runtime object
    (for a wrapper the value is the one of its type), and whether it is a
    modifiable lvalue (a named non-[const] variable). *)
Record operand := mk_op { o_ty : cty; o_val : cval; o_lval : bool }.

(** An operand that is not a modifiable lvalue (a prvalue, or a [const]
    object). *)
Definition mk_operand (t : cty) (v : cval) : operand := mk_op t v false.

Definition cwop (var : variant) (x : cval) : operand := mk_operand (cw_of var x) x.
Definition rt (v : cval) : operand := mk_operand (type_of v) v.

(** A non-[const] variable [v] of a scalar type. *)
Definition lvar (v : cval) : operand := mk_op (type_of v) v true.

(** [operator value_type()]: [return _Xp;], inherited by derived classes. *)
Fixpoint conversion (t : cty) : option cval :=
  match t with
  | TWrapper x u => copy_init u x
  | TConstT x => Some x
  | TDerived _ b => conversion b
  | _ => None
  end.

(** The operand as the built-in operators and the operators of the value
    type see it: converted where it is a wrapper. *)
Definition conv_val (o : operand) : cval :=
  match conversion (o_ty o) with Some v => v | None => o_val o end.

(** What an expression is. *)
Inductive outcome :=
  | Wrapped (t : cty)          (* an object of the wrapper type [t] *)
  | Plain (v : cval)           (* a plain value of type [type_of v] *)
  | Undefined                  (* compiles; undefined behaviour when run *)
  | AddressOfOperand           (* built-in [&] on the wrapper object *)
  | IllFormed
  | Ambiguous.

Definition outcome_of (r : res) : outcome :=
  match r with RVal v => Plain v | RUndef => Undefined | RIll => IllFormed end.

Fixpoint nodup_ty (seen l : list cty) : list cty :=
  match l with
  | [] => []
  | t :: r => if existsb (cty_eqb t) seen then nodup_ty seen r else t :: nodup_ty (t :: seen) r
  end.

(** The wrapper classes whose hidden friend [operator op] argument-dependent
    lookup finds: the wrapper bases of both operand types, each once. *)
Definition friend_candidates (var : variant) (a b : operand) : list cty :=
  nodup_ty [] (filter (is_wrapper var) (bases (o_ty a) ++ bases (o_ty b))).

(** The friend of [This = w],
    [template <__lhs_constexpr_wrapper<constexpr_wrapper> _Ap, constexpr_value _Bp>
     friend constexpr_wrapper<(_Ap::value op _Bp::value)> operator op(_Ap, _Bp)],
    is viable: its constraints hold and its return type is well-formed. *)
Definition friend_viable (var : variant) (op : binop) (w : cty) (a b : operand) : bool :=
  lhs_constexpr_wrapper var (o_ty a) w && constexpr_value var (o_ty b) &&
  match static_value (o_ty a), static_value (o_ty b) with
  | Some x, Some y =>
      match native_binop op x y with
      | RVal r => valid_type (cw_of var r)
      | _ => false
      end
  | _, _ => false
  end.

Definition viable_friends (var : variant) (op : binop) (a b : operand) : list cty :=
  filter (fun w => friend_viable var op w a b) (friend_candidates var a b).

Definition find_nonmember (op : binop) (cs : list string) : option (cval -> cval -> res) :=
  fold_right (fun c acc => match class_binop c op false with Some f => Some f | None => acc end)
    None cs.

(** Without a viable friend, the candidates that convert a wrapper operand:
    the non-member operators of a class value type (found through the type
    template argument only), or the built-in operators. Member operators of
    the value type are not candidates. The built-in comma converts neither
    operand: its result is the right operand, a wrapper object where that is
    one. A compound assignment to a modifiable scalar lvalue is the built-in
    one. *)
Definition fallback_binop (op : binop) (a b : operand) : outcome :=
  let x := conv_val a in
  let y := conv_val b in
  let comma :=
    match conversion (o_ty b) with Some _ => Wrapped (o_ty b) | None => Plain (o_val b) end in
  match x, y with
  | VObj _ _, _ | _, VObj _ _ =>
      match find_nonmember op (adl_classes (o_ty a) ++ adl_classes (o_ty b)) with
      | Some f => outcome_of (f x y)
      | None => match op with BComma => comma | _ => IllFormed end
      end
  | _, _ =>
      match op with
      | BComma => comma
      | _ =>
          if o_lval a && is_some (compound_base op) && negb (is_class_type (o_ty a))
          then outcome_of (compound_assign op x y)
          else outcome_of (scalar_binop op x y)
      end
  end.

(** [a op b] for the binary operators. (The reversed and rewritten
    candidates of C++20 comparisons come from the same friends with the
    operands swapped; they lose against a viable non-rewritten candidate and
    are not modelled.) *)
Definition resolve_binop (var : variant) (op : binop) (a b : operand) : outcome :=
  match viable_friends var op a b with
  | [_] =>
      match static_value (o_ty a), static_value (o_ty b) with
      | Some x, Some y =>
          match native_binop op x y with
          | RVal r => Wrapped (cw_of var r)
          | _ => IllFormed
          end
      | _, _ => IllFormed
      end
  | [] => fallback_binop op a b
  | _ => Ambiguous
  end.

Definition fallback_unop (op : unop) (a : operand) : outcome :=
  match op with
  | UAddr => AddressOfOperand
  | _ =>
      let x := conv_val a in
      match x with
      | VObj c _ =>
          match classes c with
          | Some ci =>
              match cs_unop ci op with
              | Some (NonMember, f) =>
                  if existsb (String.eqb c) (adl_classes (o_ty a)) then outcome_of (f x)
                  else IllFormed
              | _ => IllFormed
              end
          | None => IllFormed
          end
      | _ => outcome_of (scalar_unop op x)
      end
  end.

(** [op a] for the unary operators: the member template
    [template <auto _Yp = _Xp> constexpr_wrapper<op _Yp> operator op() const]
    of the wrapper base, else the candidates that convert the operand. *)
Definition resolve_unop (var : variant) (op : unop) (a : operand) : outcome :=
  let member :=
    match find (is_wrapper var) (bases (o_ty a)), param_value (o_ty a) with
    | Some _, Some x =>
        match native_unop op x with
        | RVal r => if valid_type (cw_of var r) then Some (Wrapped (cw_of var r)) else None
        | _ => None
        end
    | _, _ => None
    end in
  match member with
  | Some o => o
  | None => fallback_unop op a
  end.

Fixpoint statics (l : list operand) : option (list cval) :=
  match l with
  | [] => Some []
  | a :: r =>
      match static_value (o_ty a), statics r with
      | Some v, Some vs => Some (v :: vs)
      | _, _ => None
      end
  end.

(** [w(args...)] for a wrapper type [w]: the overload for [constexpr_value]
    arguments, [constexpr_wrapper<value(_Args::value...)>]; the overload for
    arguments of which one is not a [constexpr_value], [value(args...)];
    and in variant B [operator()()] returning [value], constrained on
    [not requires { value(); }]. *)
Definition call_op (var : variant) (w : cty) (args : list operand) : outcome :=
  match static_value w with
  | None => IllFormed
  | Some v =>
      if forallb (fun a => constexpr_value var (o_ty a)) args then
        match statics args with
        | Some vs =>
            match invoke v vs with
            | RVal r => if valid_type (cw_of var r) then Wrapped (cw_of var r) else IllFormed
            | RIll =>
                match var, args with
                | VarB, [] => Plain v
                | _, _ => IllFormed
                end
            | RUndef => IllFormed
            end
        | None => IllFormed
        end
      else outcome_of (invoke v (map conv_val args))
  end.

(** [w[args...]] (multidimensional subscript). *)
Definition subscript_op (var : variant) (w : cty) (args : list operand) : outcome :=
  match static_value w with
  | None => IllFormed
  | Some v =>
      if forallb (fun a => constexpr_value var (o_ty a)) args then
        match statics args with
        | Some vs =>
            match subscript v vs with
            | RVal r => if valid_type (cw_of var r) then Wrapped (cw_of var r) else IllFormed
            | _ => IllFormed
            end
        | None => IllFormed
        end
      else outcome_of (subscript v (map conv_val args))
  end.

(** [w.operator->()]. Variant B: [_Xp.operator->()] if that is well-formed,
    else [std::addressof(_Xp)], which is ill-formed for a scalar [_Xp] (a
    prvalue binds to the deleted overload); the declared return type
    [const auto*] is deduced from a pointer only, so a class object returned
    by [_Xp.operator->()] makes it ill-formed. Variant A:
    [decltype(_Yp.operator->())] only, whatever its type. *)
Definition arrow (var : variant) (w : cty) : option cval :=
  match param_value w with
  | Some (VObj c _ as x) =>
      match classes c with
      | Some ci =>
          match cs_arrow ci, var with
          | Some f, VarB => if is_pointer (f x) then Some (f x) else None
          | Some f, VarA => Some (f x)
          | None, VarB => Some (VParamAddr x)
          | None, VarA => None
          end
      | None => None
      end
  | _ => None
  end.

Fixpoint lookup_field (m : string) (fs : list (string * Z)) : option Z :=
  match fs with
  | [] => None
  | (n, z) :: r => if String.eqb n m then Some z else lookup_field m r
  end.

(** [x.m] *)
Definition member_of (x : cval) (m : string) : option Z :=
  match x with VObj _ fs => lookup_field m fs | _ => None end.

(** The number of [operator->] calls followed in one [->] expression (a
    chain that does not reach a pointer is ill-formed). *)
Definition arrow_limit : nat := 8.

(** [p->m] where [p] is what an [operator->] returned: the built-in [->] of
    a pointer, or, for a class object, [p.operator->()->m] again. *)
Fixpoint deref_member (fuel : nat) (p : cval) (m : string) : option Z :=
  match p with
  | VParamAddr x => member_of x m
  | VPtr _ o => match objects o with Some v => member_of v m | None => None end
  | VObj c _ =>
      match fuel with
      | O => None
      | S n =>
          match classes c with
          | Some ci =>
              match cs_arrow ci with Some f => deref_member n (f p) m | None => None end
          | None => None
          end
      end
  | _ => None
  end.

(** [w->m] *)
Definition wrapper_member (var : variant) (w : cty) (m : string) : option Z :=
  match arrow var w with Some p => deref_member arrow_limit p m | None => None end.

(** [x->m] on the value itself: through the class's [operator->] (and those
    of what it returns), or the built-in [->] of a pointer. *)
Definition direct_arrow_member (x : cval) (m : string) : option Z :=
  match x with
  | VObj _ _ | VPtr _ _ => deref_member (S arrow_limit) x m
  | _ => None
  end.

End Program.

(** *** The classes of [test.cpp] *)

(** An argument passed to an [int] parameter. *)
Definition int_arg (v : cval) : option Z :=
  match v with
  | VInt _ z => Some (wrap Int z)
  | VBool b => Some (Z.b2z b)
  | _ => None
  end.

Definition no_call (_ : cval) (_ : list cval) : res := RIll.

(** [struct Test { int value = 1; ... }]:
    [operator()(int a, int b) const { return a + b + value; }],
    [operator[](auto... args) const { return (value + ... + args); }] and a
    defaulted [operator==]. *)
Definition test_call (self : cval) (args : list cval) : res :=
  match args, member_of self "value"%string with
  | [a; b], Some v =>
      match int_arg a, int_arg b with
      | Some a, Some b =>
          res_bind (checked Int (a + b)) (fun s =>
            match s with VInt _ s => checked Int (s + v) | _ => RIll end)
      | _, _ => RIll
      end
  | _, _ => RIll
  end.

Fixpoint sum_from (acc : Z) (args : list cval) : res :=
  match args with
  | [] => RVal (VInt Int acc)
  | a :: r =>
      match int_arg a with
      | Some z => if in_range Int (acc + z) then sum_from (acc + z) r else RUndef
      | None => RIll
      end
  end.

Definition test_index (self : cval) (args : list cval) : res :=
  match member_of self "value"%string with Some v => sum_from v args | None => RIll end.

Definition test_info : cls_info := {|
  cs_structural := true;
  cs_arrow := None;
  cs_call := test_call;
  cs_index := test_index;
  cs_unop := fun _ => None;
  cs_binop := fun op =>
    match op with
    | BEq => Some (Member, fun a b =>
        match a, b with
        | VObj _ f, VObj _ g => RVal (VBool (fields_eqb f g))
        | _, _ => RIll
        end)
    | _ => None
    end
|}.

Definition Test (v : Z) : cval := VObj "Test"%string [("value"%string, v)].

(** [struct Aaaargh]: const member operators [+=], [-=], [++], [--] and
    [->*] returning [int]. *)
Definition aaaargh_info : cls_info := {|
  cs_structural := true;
  cs_arrow := None;
  cs_call := no_call;
  cs_index := no_call;
  cs_unop := fun op =>
    match op with
    | UPreInc => Some (Member, fun _ => RVal (VInt Int 1))
    | UPostInc => Some (Member, fun _ => RVal (VInt Int 2))
    | UPreDec => Some (Member, fun _ => RVal (VInt Int 3))
    | UPostDec => Some (Member, fun _ => RVal (VInt Int 4))
    | _ => None
    end;
  cs_binop := fun op =>
    let int_op g := Some (Member, fun (_ b : cval) =>
      match int_arg b with Some z => checked Int (g z) | None => RIll end) in
    match op with
    | BAddAssign => int_op (fun x => x + 1)
    | BSubAssign => int_op (fun x => x - 1)
    | BArrowStar => int_op (fun x => x + 5)
    | _ => None
    end
|}.

Definition Aaaargh : cval := VObj "Aaaargh"%string [].

(** [struct NeedsAdl { int value; NeedsAdl(int); }] with the hidden friend
    [operator+(NeedsAdl, NeedsAdl)] returning [int]. *)
Definition needs_adl_arg (v : cval) : option Z :=
  match v with
  | VObj _ fs => lookup_field "value"%string fs
  | _ => int_arg v
  end.

Definition needs_adl_info : cls_info := {|
  cs_structural := true;
  cs_arrow := None;
  cs_call := no_call;
  cs_index := no_call;
  cs_unop := fun _ => None;
  cs_binop := fun op =>
    match op with
    | BAdd => Some (NonMember, fun a b =>
        match needs_adl_arg a, needs_adl_arg b with
        | Some x, Some y => checked Int (x + y)
        | _, _ => RIll
        end)
    | _ => None
    end
|}.

Definition NeedsAdl (v : Z) : cval := VObj "NeedsAdl"%string [("value"%string, v)].

(** A pointer-like class whose [operator->() const] returns [&t], where
    [constexpr Test t{}]. *)
Definition holder_info : cls_info := {|
  cs_structural := true;
  cs_arrow := Some (fun _ => VPtr (TClass "Test"%string) "t"%string);
  cs_call := no_call;
  cs_index := no_call;
  cs_unop := fun _ => None;
  cs_binop := fun _ => None
|}.

Definition Holder : cval := VObj "Holder"%string [].

(** A class whose [operator->() const] returns a [Holder] object (a proxy). *)
Definition proxy_info : cls_info := {|
  cs_structural := true;
  cs_arrow := Some (fun _ => Holder);
  cs_call := no_call;
  cs_index := no_call;
  cs_unop := fun _ => None;
  cs_binop := fun _ => None
|}.

Definition Proxy : cval := VObj "Proxy"%string [].

Definition test_classes (c : string) : option cls_info :=
  if String.eqb c "Test"%string then Some test_info
  else if String.eqb c "Aaaargh"%string then Some aaaargh_info
  else if String.eqb c "NeedsAdl"%string then Some needs_adl_info
  else if String.eqb c "Holder"%string then Some holder_info
  else if String.eqb c "Proxy"%string then Some proxy_info
  else None.

Definition test_objects (o : string) : option cval :=
  if String.eqb o "t"%string then Some (Test 1) else None.

(** [template <auto X> struct Derived : constexpr_wrapper<X> {};] *)
Definition Derived (x : cval) : cty := TDerived "Derived"%string (cw_of VarB x).

(** *** Classes of values used in the statements *)

(** An integer constant of its type. *)
Definition int_value (x : cval) : bool :=
  match x with VInt k z => in_range k z | _ => false end.

(** A value the built-in operators produce: an integer in the range of its
    type, a [bool] or a [std::strong_ordering]. *)
Definition scalar_ok (r : cval) : bool :=
  match r with
  | VInt k z => in_range k z
  | VBool _ | VOrd _ => true
  | _ => false
  end.

(** A well-formed value: integers lie in the range of their type. *)
Fixpoint value_ok (x : cval) : bool :=
  match x with
  | VInt k z => in_range k z
  | VParamAddr y => value_ok y
  | _ => true
  end.

Definition is_class_value (x : cval) : bool :=
  match x with VObj _ _ => true | _ => false end.

End Protocol.

Module LiteralFacts.
Import CwLiteral.

(** ** Lemmas on [span] *)


Lemma span_all p l a b : span p l = (a, b) -> forallb p a = true.
Proof.
  revert a b; induction l as [|c l IH]; intros a b H; simpl in H.
  - inversion H; reflexivity.
  - destruct (p c) eqn:Pc.
    + destruct (span p l) as [a' b'] eqn:E. inversion H; subst.
      simpl; rewrite Pc; eapply IH; reflexivity.
    + inversion H; reflexivity.
Qed.















Lemma horner_cons dv base x c ds :
  horner dv base x (c :: ds) = horner dv base (x * base + dv c) ds.
Proof. reflexivity. Qed.


Lemma horner_ge dv base x ds :
  1 <= base -> 0 <= x -> (forall c, In c ds -> 0 <= dv c) -> x <= horner dv base x ds.
Proof.
  revert x; induction ds as [|c ds IH]; intros x Hb Hx H; [unfold horner; simpl; lia|].
  rewrite horner_cons.
  assert (0 <= dv c) by (apply H; left; reflexivity).
  assert (x <= x * base + dv c) by nia.
  assert (x * base + dv c <= horner dv base (x * base + dv c) ds).
  { apply IH; [lia | nia | intros c' Hc'; apply H; right; exact Hc']. }
  lia.
Qed.

Lemma ull_max_pos : 0 < ull_max.
Proof. vm_compute. reflexivity. Qed.

Lemma cw_accumulate_cons base x c ds :
  cw_accumulate base x (c :: ds) =
    (if x >? ull_max / base then 0
     else if x * base >? ull_max - cw_nextdigit base c then 0
     else cw_accumulate base (x * base + cw_nextdigit base c) ds).
Proof. reflexivity. Qed.

(** The loop computing [__x] returns the value when it fits in
    [unsigned long long] and the sentinel [0] otherwise. *)
Lemma cw_accumulate_spec base x ds :
  2 <= base -> 0 <= x <= ull_max ->
  (forall c, In c ds -> 0 <= cw_nextdigit base c < base) ->
  cw_accumulate base x ds =
    (let v := horner (cw_nextdigit base) base x ds in if v <=? ull_max then v else 0).
Proof.
  pose proof ull_max_pos as Hm.
  revert x; induction ds as [|c ds IH]; intros x Hb Hx H.
  - unfold horner; cbn [fold_left cw_accumulate]. destruct (Z.leb_spec x ull_max); lia.
  - rewrite cw_accumulate_cons, horner_cons; cbv zeta.
    assert (Hd : 0 <= cw_nextdigit base c < base) by (apply H; left; reflexivity).
    assert (Hrest : forall c', In c' ds -> 0 <= cw_nextdigit base c' < base)
      by (intros c' Hc'; apply H; right; exact Hc').
    set (q := ull_max / base) in *.
    assert (Hq1 : base * q <= ull_max) by (apply Z.mul_div_le; lia).
    assert (Hq2 : ull_max < base * Z.succ q) by (apply Z.mul_succ_div_gt; lia).
    clearbody q.
    set (d := cw_nextdigit base c) in *.
    set (y := x * base + d).
    assert (Hge : y <= horner (cw_nextdigit base) base y ds).
    { apply horner_ge; [lia | unfold y; nia | intros c' Hc'; apply Hrest; exact Hc']. }
    destruct (Z.gtb_spec x q) as [Hx1|Hx1].
    + assert (Z.succ q * base <= x * base) by (apply Z.mul_le_mono_nonneg_r; lia).
      assert (ull_max < y) by (unfold y; lia).
      destruct (Z.leb_spec (horner (cw_nextdigit base) base y ds) ull_max); lia.
    + assert (x * base <= q * base) by (apply Z.mul_le_mono_nonneg_r; lia).
      destruct (Z.gtb_spec (x * base) (ull_max - d)) as [Hx2|Hx2].
      * assert (ull_max < y) by (unfold y; lia).
        destruct (Z.leb_spec (horner (cw_nextdigit base) base y ds) ull_max); lia.
      * apply IH; [lia | unfold y; nia | exact Hrest].
Qed.

(** ** Characters and separators *)

Lemma digit_not_sep p c :
  In p [is_hex; is_dec; is_oct; is_bin] -> p c = true -> is_digit_sep c = false.
Proof.
  intros Hp Hc. destruct (is_digit_sep c) eqn:E; [|reflexivity].
  apply Ascii.eqb_eq in E; subst.
  simpl in Hp; destruct Hp as [<-|[<-|[<-|[<-|[]]]]]; vm_compute in Hc; discriminate.
Qed.

Lemma strip_app l l' : cw_prepare_array (l ++ l') = cw_prepare_array l ++ cw_prepare_array l'.
Proof. apply filter_app. Qed.

Lemma strip_cons_digit c l :
  is_digit_sep c = false -> cw_prepare_array (c :: l) = c :: cw_prepare_array l.
Proof. intros H. unfold cw_prepare_array; simpl. rewrite H. reflexivity. Qed.


Lemma forallb_In_iff (f : ascii -> bool) l : forallb f l = true <-> (forall c, In c l -> f c = true).
Proof. apply forallb_forall. Qed.

(** ** Digit sequences accepted by the lexer *)


Lemma last_default_irrel (l : list ascii) c d d' : last (c :: l) d = last (c :: l) d'.
Proof.
  revert c; induction l as [|c2 l IH]; intros c; [reflexivity|].
  change (last (c2 :: l) d = last (c2 :: l) d'). apply IH.
Qed.

Lemma seq_ok_last p ds c0 :
  digit_seq_ok p ds = true -> p (last ds c0) = true.
Proof.
  destruct ds as [|c1 ds]; [discriminate|]. unfold digit_seq_ok.
  intros H. apply andb_true_iff in H as [H Hn]. apply andb_true_iff in H as [H Hall].
  apply andb_true_iff in H as [H0 Hl].
  replace (last (c1 :: ds) c0) with (last (c1 :: ds) c1); [exact Hl|].
  apply last_default_irrel.
Qed.


(** ** Inversion of the lexer *)




(** ** Splitting [d ++ sfx] at the ud-suffix *)





(** ** Evaluation of [__cw_parse] on the four literal shapes *)






Lemma is_x_not_sep X : is_x X = true -> is_digit_sep X = false.
Proof.
  unfold is_x. intros H. apply orb_true_iff in H as [H|H]; apply Ascii.eqb_eq in H; subst; reflexivity.
Qed.




(** ** Facts on single characters, checked over all 256 of them *)












(** ** Dispatch of the literal operators *)








(** ** [__cw_parse] accepts no pack *)

Lemma checks_cons v arr x : exists l, cw_checks v arr x = EndNotConstant :: l.
Proof. eexists; reflexivity. Qed.

Lemma cw_parse_end chars : exists errs, cw_parse chars = Rejected (EndNotConstant :: errs).
Proof.
  unfold cw_parse. cbv zeta.
  destruct (checks_cons (forallb (cw_valid_char (cw_base (cw_prepare_array chars)))
              (cw_range (cw_prepare_array chars) (cw_base (cw_prepare_array chars))))
              (cw_prepare_array chars)
              (cw_accumulate (cw_base (cw_prepare_array chars)) 0
                 (cw_range (cw_prepare_array chars) (cw_base (cw_prepare_array chars)))))
    as [l ->].
  eexists; reflexivity.
Qed.



Lemma prepare_idem l : cw_prepare_array (cw_prepare_array l) = cw_prepare_array l.
Proof.
  unfold cw_prepare_array. induction l as [|a l IH]; [reflexivity|].
  simpl. destruct (negb (is_digit_sep a)) eqn:E; [simpl; rewrite E; f_equal |]; exact IH.
Qed.

Lemma cw_parse_prepared chars : cw_parse chars = cw_parse (cw_prepare_array chars).
Proof. unfold cw_parse. rewrite prepare_idem. reflexivity. Qed.

Lemma literal_operator_rejected num sfx : exists errs, literal_operator num sfx = Rejected errs.
Proof.
  unfold literal_operator.
  destruct (chars_eqb sfx sfx_cw || chars_eqb sfx sfx_CW);
    [destruct (cw_parse_end num) as [errs ->]; eauto |].
  destruct (chars_eqb sfx sfx_w);
    [destruct (w_requires "c" num); [destruct (cw_parse_end num) as [errs ->] |]; eauto |].
  destruct (chars_eqb sfx sfx_W);
    [destruct (w_requires "C" num); [destruct (cw_parse_end num) as [errs ->] |] |]; eauto.
Qed.

(** Every literal token is rejected at build time. *)
Lemma literal_rejected s : exists errs, literal s = Rejected errs.
Proof.
  unfold literal.
  destruct (lex_float s) as [[num sfx]|]; [apply literal_operator_rejected|].
  destruct (lex_number s) as [[num sfx]|]; [apply literal_operator_rejected | eauto].
Qed.


(** ** A complete digit sequence followed by [cw] or [CW] *)












(** ** The literal front-end: claims *)

Example lit_1 : lit "1cw" = Rejected [EndNotConstant].
Proof. vm_compute. reflexivity. Qed.

(** [1e5cw] is a floating literal: the pack is [1e5]. *)
Example lit_1e5 :
  lex_float (list_ascii_of_string "1e5cw") =
    Some (list_ascii_of_string "1e5", list_ascii_of_string "cw") /\
  lit "1e5cw" = Rejected [EndNotConstant; InvalidCharacters; NoArrayEquality].
Proof. vm_compute. split; reflexivity. Qed.


(** C5: a digit sequence followed by [cw] or [CW] that has a digit invalid
    for the base its prefix selects, or whose value exceeds the maximum of
    [unsigned long long], is rejected at build time: it yields no value. *)
Theorem literal_bad_digits_rejected d sfx :
  In sfx [sfx_cw; sfx_CW] ->
  has_invalid_digit d = true \/ ull_max < spec_value d ->
  exists errs, literal (d ++ sfx) = Rejected errs.
Proof.
  intros _ _. apply literal_rejected.
Qed.

Lemma literal_bad_digits_rejected_witness :
  (In sfx_cw [sfx_cw; sfx_CW] /\
   ull_max < spec_value (list_ascii_of_string "18446744073709551616")) /\
  exists errs, literal (list_ascii_of_string "18446744073709551616" ++ sfx_cw) = Rejected errs.
Proof.
  split; [split; [left; reflexivity | vm_compute; reflexivity] |].
  apply (literal_bad_digits_rejected (list_ascii_of_string "18446744073709551616") sfx_cw).
  - left; reflexivity.
  - right. vm_compute. reflexivity.
Defined.



End LiteralFacts.

Module ProtocolFacts.
Import Protocol.

Lemma ity_eqb_refl k : ity_eqb k k = true.
Proof. destruct k; reflexivity. Qed.

Lemma fields_eqb_refl fs : fields_eqb fs fs = true.
Proof.
  induction fs as [|[m z] fs IH]; simpl; [reflexivity|].
  rewrite String.eqb_refl, Z.eqb_refl, IH; reflexivity.
Qed.

Lemma cval_eqb_refl : forall v, cval_eqb v v = true
with cty_eqb_refl : forall t, cty_eqb t t = true.
Proof.
  - destruct v as [k z|b|c|t o|x|c fs]; simpl.
    + rewrite ity_eqb_refl, Z.eqb_refl; reflexivity.
    + destruct b; reflexivity.
    + destruct c; reflexivity.
    + rewrite (cty_eqb_refl t), String.eqb_refl; reflexivity.
    + apply cval_eqb_refl.
    + rewrite String.eqb_refl, fields_eqb_refl; reflexivity.
  - destruct t as [k| | |t|c|x t|x|n b]; simpl.
    + apply ity_eqb_refl.
    + reflexivity.
    + reflexivity.
    + apply cty_eqb_refl.
    + apply String.eqb_refl.
    + rewrite (cval_eqb_refl x), (cty_eqb_refl t); reflexivity.
    + apply cval_eqb_refl.
    + rewrite String.eqb_refl, (cty_eqb_refl b); reflexivity.
Qed.

(** The range of [k] is [[ity_min k, ity_min k + 2^N - 1]] and contains 0. *)
Lemma ity_span k :
  ity_max k = ity_min k + 2 ^ ity_bits k - 1 /\ 0 < 2 ^ ity_bits k /\
  ity_min k <= 0 <= ity_max k.
Proof. destruct k; vm_compute; repeat split; congruence. Qed.

Lemma in_range_iff k z : in_range k z = true <-> ity_min k <= z <= ity_max k.
Proof. unfold in_range; rewrite andb_true_iff, !Z.leb_le; tauto. Qed.

Lemma wrap_in_range k z : in_range k (wrap k z) = true.
Proof.
  apply in_range_iff; unfold wrap.
  destruct (ity_span k) as (Hm & Hp & _).
  pose proof (Z.mod_pos_bound (z - ity_min k) _ Hp); lia.
Qed.

Lemma wrap_id k z : in_range k z = true -> wrap k z = z.
Proof.
  rewrite in_range_iff; intros H; unfold wrap.
  destruct (ity_span k) as (Hm & Hp & _).
  rewrite Z.mod_small by lia; lia.
Qed.

Lemma in_range_promote k z : in_range k z = true -> in_range (promote k) z = true.
Proof.
  destruct k; simpl promote; try tauto; rewrite !in_range_iff;
    [change (ity_min SChar) with (-128); change (ity_max SChar) with 127
    |change (ity_min Short) with (-32768); change (ity_max Short) with 32767];
    change (ity_min Int) with (-2147483648); change (ity_max Int) with 2147483647; lia.
Qed.

(** A value between [z] and 0 stays in range. *)
Lemma in_range_between k z w :
  in_range k z = true -> Z.min z 0 <= w <= Z.max z 0 -> in_range k w = true.
Proof.
  rewrite !in_range_iff; destruct (ity_span k) as (_ & _ & H0); lia.
Qed.

Lemma rem_between a b : b <> 0 -> Z.min a 0 <= Z.rem a b <= Z.max a 0.
Proof.
  intros Hb.
  assert (Hpos : forall a b, 0 <= a -> 0 < b -> 0 <= Z.rem a b <= a).
  { intros a' b' Ha' Hb'; split; [apply Z.rem_bound_pos; lia | apply Z.rem_le; lia]. }
  assert (Habs : forall a, 0 <= a -> 0 <= Z.rem a b <= a).
  { intros a' Ha'; destruct (Z.lt_ge_cases b 0).
    - rewrite <- Z.rem_opp_r by lia; apply Hpos; lia.
    - apply Hpos; lia. }
  destruct (Z.le_gt_cases 0 a).
  - specialize (Habs a H); lia.
  - specialize (Habs (- a) ltac:(lia)).
    rewrite Z.rem_opp_l in Habs by lia; lia.
Qed.

Lemma shiftr_between a n : 0 <= n -> Z.min a 0 <= Z.shiftr a n <= Z.max a 0.
Proof.
  intros Hn; rewrite Z.shiftr_div_pow2 by lia.
  assert (Hd : 1 <= 2 ^ n) by (apply Z.pow_le_mono_r with (a := 2) in Hn; lia).
  destruct (Z.le_gt_cases 0 a).
  - split.
    + pose proof (Z.div_pos a (2 ^ n) H ltac:(lia)); lia.
    + pose proof (Z.div_le_upper_bound a (2 ^ n) a ltac:(lia) ltac:(nia)); lia.
  - split.
    + pose proof (Z.div_le_lower_bound a (2 ^ n) a ltac:(lia) ltac:(nia)); lia.
    + pose proof (Z.div_le_upper_bound a (2 ^ n) 0 ltac:(lia) ltac:(lia)); lia.
Qed.

Lemma checked_ok k r v : checked k r = RVal v -> scalar_ok v = true.
Proof.
  unfold checked; destruct (ity_signed k).
  - destruct (in_range k r) eqn:E; intros H; inversion H; subst; exact E.
  - intros H; inversion H; subst; apply wrap_in_range.
Qed.

Ltac res_cases :=
  repeat match goal with
  | H : RVal _ = RVal _ |- _ => injection H as <-
  | H : RUndef = RVal _ |- _ => discriminate H
  | H : RIll = RVal _ |- _ => discriminate H
  | H : (if ?c then _ else _) = RVal _ |- _ => destruct c eqn:?
  | H : checked _ _ = RVal ?v |- scalar_ok ?v = true => exact (checked_ok _ _ _ H)
  end.

(** The built-in binary operators on integer constants produce values in
    the range of their type. *)
Lemma scalar_binop_ok op x y r :
  int_value x = true -> int_value y = true -> scalar_binop op x y = RVal r ->
  scalar_ok r = true.
Proof.
  destruct x as [k1 z1| | | | |]; try discriminate;
  destruct y as [k2 z2| | | | |]; try discriminate; simpl int_value.
  intros H1 H2 H.
  destruct op; cbn -[common wrap checked in_range Z.quot Z.rem Z.shiftr Z.shiftl] in H;
    res_cases; simpl scalar_ok; auto using wrap_in_range.
  - (* % *)
    apply (in_range_between _ (wrap (common (promote k1) (promote k2)) z1)); [apply wrap_in_range|].
    apply rem_between. lia.
  - (* >> *)
    apply (in_range_between _ z1); [apply in_range_promote; exact H1|].
    apply shiftr_between. lia.
Qed.

Lemma scalar_unop_ok objects op x r :
  int_value x = true -> scalar_unop objects op x = RVal r -> scalar_ok r = true.
Proof.
  destruct x as [k z| | | | |]; try discriminate; simpl int_value; intros H1 H.
  destruct op; cbn -[wrap checked in_range] in H; res_cases; simpl scalar_ok;
    auto using wrap_in_range, in_range_promote.
Qed.

Lemma valid_scalar classes var r :
  scalar_ok r = true -> valid_type classes (cw_of var r) = structural classes r.
Proof.
  destruct r as [k z|b|c| | |]; try discriminate; simpl; intros H; destruct var;
    simpl; try rewrite H; try rewrite andb_true_r; reflexivity.
Qed.

Section IntConstants.

Variable classes : string -> option cls_info.
Variable var : variant.
Variable x : cval.
Hypothesis Hx : int_value x = true.

Lemma int_static : static_value (cw_of var x) = Some x.
Proof.
  destruct x as [k z| | | | |]; try discriminate; destruct var; simpl; auto.
  simpl in Hx; rewrite Hx; reflexivity.
Qed.

Lemma int_conversion : conversion (cw_of var x) = Some x.
Proof.
  destruct x as [k z| | | | |]; try discriminate; destruct var; simpl; auto.
  rewrite wrap_id by exact Hx; reflexivity.
Qed.

Lemma int_structural : structural classes x = true.
Proof. destruct x; try discriminate; reflexivity. Qed.

Lemma int_valid : valid_type classes (cw_of var x) = true.
Proof.
  rewrite valid_scalar by (destruct x; try discriminate; exact Hx).
  apply int_structural.
Qed.

Lemma int_constexpr_value : constexpr_value classes var (cw_of var x) = true.
Proof. unfold constexpr_value; rewrite int_static; apply int_valid. Qed.

Lemma cw_bases : bases (cw_of var x) = [cw_of var x].
Proof. destruct var; reflexivity. Qed.

Lemma cw_derived_from w : derived_from (cw_of var x) w = cty_eqb w (cw_of var x).
Proof.
  unfold derived_from; rewrite cw_bases; destruct var; simpl; rewrite orb_false_r; reflexivity.
Qed.

Lemma int_any : any_constexpr_wrapper classes var (cw_of var x) = true.
Proof.
  unfold any_constexpr_wrapper; rewrite int_static, int_valid, cw_derived_from.
  apply cty_eqb_refl.
Qed.

(** The friend of another wrapper class is never viable for a left operand
    [cw<x>]. *)
Lemma friend_other w b op :
  cty_eqb w (cw_of var x) = false -> friend_viable classes var op w (cwop var x) b = false.
Proof.
  intros Hw; unfold friend_viable, lhs_constexpr_wrapper; simpl o_ty.
  rewrite int_constexpr_value, cw_derived_from, Hw, int_any; reflexivity.
Qed.

End IntConstants.

Lemma value_static var x : value_ok x = true -> static_value (cw_of var x) = Some x.
Proof.
  intros Hok; destruct var; [reflexivity|]; simpl.
  destruct x; simpl in Hok |- *; rewrite ?Hok, ?cty_eqb_refl, ?String.eqb_refl; reflexivity.
Qed.

Section Constants.

Variable classes : string -> option cls_info.
Variable var : variant.
Variable x : cval.
Hypothesis Hok : value_ok x = true.
Hypothesis Hvalid : valid_type classes (cw_of var x) = true.

Lemma value_constexpr : constexpr_value classes var (cw_of var x) = true.
Proof. unfold constexpr_value; rewrite (value_static var x Hok); exact Hvalid. Qed.

Lemma value_any : any_constexpr_wrapper classes var (cw_of var x) = true.
Proof.
  unfold any_constexpr_wrapper; rewrite (value_static var x Hok), Hvalid, cw_derived_from.
  apply cty_eqb_refl.
Qed.

(** The friend of another wrapper class is never viable for a left operand
    [cw<x>]. *)
Lemma value_friend_other w b op :
  cty_eqb w (cw_of var x) = false -> friend_viable classes var op w (cwop var x) b = false.
Proof.
  intros Hw; unfold friend_viable, lhs_constexpr_wrapper; simpl o_ty.
  rewrite value_constexpr, cw_derived_from, Hw, value_any; reflexivity.
Qed.

End Constants.

Lemma outcome_of_not_wrapped r t : outcome_of r <> Wrapped t.
Proof. destruct r; discriminate. Qed.

Ltac not_wrapped :=
  repeat match goal with
         | |- context [match ?e with _ => _ end] => destruct e
         end;
  first [ apply outcome_of_not_wrapped | discriminate | congruence ].

(** Apart from the comma, the candidates that convert the operands never
    give a wrapper. *)
Lemma fallback_binop_not_wrapped classes op a b t :
  op <> BComma -> fallback_binop classes op a b <> Wrapped t.
Proof.
  intros Hop; unfold fallback_binop; cbv zeta.
  destruct (conv_val a), (conv_val b); destruct op; not_wrapped.
Qed.

Lemma fallback_unop_not_wrapped classes objects op a t :
  fallback_unop classes objects op a <> Wrapped t.
Proof. unfold fallback_unop; destruct op; cbv zeta; not_wrapped. Qed.

Lemma unop_structural classes objects op x r :
  int_value x = true -> scalar_unop objects op x = RVal r -> structural classes r = true.
Proof.
  destruct x as [k z| | | | |]; try discriminate; intros _ H.
  destruct op; cbn -[wrap checked in_range] in H; res_cases; try reflexivity;
    unfold checked in H; destruct (ity_signed _); [destruct (in_range _ _)|];
    res_cases; try discriminate; reflexivity.
Qed.

Lemma candidates_two var x y :
  friend_candidates var (cwop var x) (cwop var y) =
  cw_of var x :: (if cty_eqb (cw_of var y) (cw_of var x) then [] else [cw_of var y]).
Proof.
  unfold friend_candidates; simpl o_ty; rewrite !cw_bases.
  destruct var; cbn [app filter is_wrapper cw_of nodup_ty existsb]; rewrite orb_false_r;
    reflexivity.
Qed.

Lemma int_native classes op x y :
  int_value x = true -> int_value y = true -> native_binop classes op x y = scalar_binop op x y.
Proof. destruct x, y; try discriminate; reflexivity. Qed.

Lemma int_param var x : param_value (cw_of var x) = Some x.
Proof. destruct var; reflexivity. Qed.

Lemma cw_find var x : find (is_wrapper var) (bases (cw_of var x)) = Some (cw_of var x).
Proof. rewrite cw_bases; destruct var; reflexivity. Qed.

Lemma fallback_ints classes var op x y :
  int_value x = true -> int_value y = true -> op <> BComma ->
  fallback_binop classes op (cwop var x) (cwop var y) = outcome_of (scalar_binop op x y).
Proof.
  intros Hx Hy Hop; unfold fallback_binop, conv_val; simpl o_ty.
  rewrite !int_conversion by assumption.
  destruct x, y; try discriminate; destruct op; solve [reflexivity | congruence].
Qed.

(** C1 (amended). For constants [x] and [y] of any value type a wrapper
    can hold ([constexpr_wrapper<x>] and [constexpr_wrapper<y>] valid types;
    in this model: integers, [bool], [std::strong_ordering], pointers and
    class objects), in both variants, [cw<x> op cw<y>] is the wrapper of the
    native [x op y] (an operator of the class of [x] or [y], or the built-in
    one) when [x op y] is a constant [r] for which [cw<r>] is a valid type;
    otherwise it is what the candidates converting the operands give, which
    is never a wrapper except for the comma. [op cw<x>] is likewise the
    wrapper of the native [op x] when that is such a constant, and never a
    wrapper otherwise. On integer constants this reads: the result is
    wrapped where the built-in result is a constant of a structural type, a
    plain value where it is a constant of a non-structural type (the
    [std::strong_ordering] of [<=>]), undefined at run time where the
    built-in operation is undefined, and ill-formed for the compound
    assignments; every unary operator is wrapped where the built-in one is
    a constant, [-INT_MIN] falls back to the built-in operator at run time,
    [&] to the address of the wrapper object, and [*], [++] and [--] are
    ill-formed. *)
Theorem operators_on_constants classes objects var :
  (forall x y,
     value_ok x = true -> value_ok y = true ->
     valid_type classes (cw_of var x) = true -> valid_type classes (cw_of var y) = true ->
     (forall op, resolve_binop classes var op (cwop var x) (cwop var y) =
        match native_binop classes op x y with
        | RVal r =>
            if valid_type classes (cw_of var r) then Wrapped (cw_of var r)
            else fallback_binop classes op (cwop var x) (cwop var y)
        | _ => fallback_binop classes op (cwop var x) (cwop var y)
        end) /\
     (forall op t, op <> BComma ->
        resolve_binop classes var op (cwop var x) (cwop var y) = Wrapped t ->
        exists r, native_binop classes op x y = RVal r /\
          valid_type classes (cw_of var r) = true /\ t = cw_of var r) /\
     (forall op, resolve_unop classes objects var op (cwop var x) =
        match native_unop classes objects op x with
        | RVal r =>
            if valid_type classes (cw_of var r) then Wrapped (cw_of var r)
            else fallback_unop classes objects op (cwop var x)
        | _ => fallback_unop classes objects op (cwop var x)
        end) /\
     (forall op t, resolve_unop classes objects var op (cwop var x) = Wrapped t ->
        exists r, native_unop classes objects op x = RVal r /\
          valid_type classes (cw_of var r) = true /\ t = cw_of var r)) /\
  (forall x y, int_value x = true -> int_value y = true ->
     (forall op, resolve_binop classes var op (cwop var x) (cwop var y) =
        match scalar_binop op x y with
        | RVal r => if structural classes r then Wrapped (cw_of var r) else Plain r
        | RUndef => Undefined
        | RIll => IllFormed
        end) /\
     (forall op, resolve_unop classes objects var op (cwop var x) =
        match scalar_unop objects op x with
        | RVal r => Wrapped (cw_of var r)
        | RUndef => Undefined
        | RIll => match op with UAddr => AddressOfOperand | _ => IllFormed end
        end)).
Proof.
  split.
  - intros x y Hx Hy Vx Vy.
    assert (Hbin : forall op, resolve_binop classes var op (cwop var x) (cwop var y) =
        match native_binop classes op x y with
        | RVal r =>
            if valid_type classes (cw_of var r) then Wrapped (cw_of var r)
            else fallback_binop classes op (cwop var x) (cwop var y)
        | _ => fallback_binop classes op (cwop var x) (cwop var y)
        end).
    { intros op.
      assert (Hself : friend_viable classes var op (cw_of var x) (cwop var x) (cwop var y) =
               match native_binop classes op x y with
               | RVal r => valid_type classes (cw_of var r)
               | _ => false
               end).
      { unfold friend_viable, lhs_constexpr_wrapper; simpl o_ty.
        rewrite (value_constexpr classes var x Hx Vx), (value_constexpr classes var y Hy Vy),
          cw_derived_from, cty_eqb_refl, (value_static var x Hx), (value_static var y Hy).
        reflexivity. }
      unfold resolve_binop, viable_friends; rewrite candidates_two.
      destruct (cty_eqb (cw_of var y) (cw_of var x)) eqn:E; cbn [filter]; rewrite Hself;
        [|rewrite (value_friend_other classes var x Hx Vx) by exact E];
        simpl o_ty; rewrite (value_static var x Hx), (value_static var y Hy);
        destruct (native_binop classes op x y); try destruct (valid_type classes (cw_of var v));
        reflexivity. }
    assert (Hun : forall op, resolve_unop classes objects var op (cwop var x) =
        match native_unop classes objects op x with
        | RVal r =>
            if valid_type classes (cw_of var r) then Wrapped (cw_of var r)
            else fallback_unop classes objects op (cwop var x)
        | _ => fallback_unop classes objects op (cwop var x)
        end).
    { intros op; unfold resolve_unop; change (o_ty (cwop var x)) with (cw_of var x).
      rewrite cw_find, int_param.
      destruct (native_unop classes objects op x); try destruct (valid_type classes (cw_of var v));
        reflexivity. }
    split; [exact Hbin|]; split; [|split; [exact Hun|]].
    + intros op t Hop H; rewrite Hbin in H.
      destruct (native_binop classes op x y) as [r| |]; [destruct (valid_type classes (cw_of var r)) eqn:V|..];
        try (exfalso; exact (fallback_binop_not_wrapped classes op _ _ t Hop H)).
      injection H as <-; exists r; auto.
    + intros op t H; rewrite Hun in H.
      destruct (native_unop classes objects op x) as [r| |]; [destruct (valid_type classes (cw_of var r)) eqn:V|..];
        try (exfalso; exact (fallback_unop_not_wrapped classes objects op _ t H)).
      injection H as <-; exists r; auto.
  - intros x y Hx Hy; split; intros op.
    + assert (Hself : friend_viable classes var op (cw_of var x) (cwop var x) (cwop var y) =
               match scalar_binop op x y with RVal r => structural classes r | _ => false end).
      { unfold friend_viable, lhs_constexpr_wrapper; simpl o_ty.
        rewrite (int_constexpr_value classes var x Hx), (int_constexpr_value classes var y Hy),
          cw_derived_from, cty_eqb_refl, (int_static var x Hx), (int_static var y Hy),
          (int_native classes op x y Hx Hy).
        destruct (scalar_binop op x y) eqn:E; try reflexivity.
        rewrite valid_scalar by exact (scalar_binop_ok op x y v Hx Hy E).
        reflexivity. }
      unfold resolve_binop, viable_friends; rewrite candidates_two.
      destruct (cty_eqb (cw_of var y) (cw_of var x)) eqn:E; cbn [filter]; rewrite Hself;
        [|rewrite (friend_other classes var x Hx) by exact E];
        simpl o_ty; rewrite (int_static var x Hx), (int_static var y Hy),
          (int_native classes op x y Hx Hy);
        destruct (scalar_binop op x y) eqn:S;
        try (destruct (structural classes v) eqn:Sv); try reflexivity;
        rewrite fallback_ints, S by (try assumption; intros ->; destruct x, y; try discriminate;
                                     simpl in S; try discriminate S; injection S as <-;
                                     discriminate Sv);
        reflexivity.
    + unfold resolve_unop; change (o_ty (cwop var x)) with (cw_of var x).
      rewrite cw_find, int_param.
      assert (Hn : native_unop classes objects op x = scalar_unop objects op x)
        by (destruct x; try discriminate; reflexivity).
      rewrite Hn; destruct (scalar_unop objects op x) eqn:S.
      * rewrite valid_scalar by exact (scalar_unop_ok objects op x v Hx S).
        rewrite (unop_structural classes objects op x v Hx S); reflexivity.
      * unfold fallback_unop, conv_val; simpl o_ty; rewrite (int_conversion var x Hx).
        destruct op; destruct x; try discriminate; simpl in S |- *; rewrite ?S; reflexivity.
      * unfold fallback_unop, conv_val; simpl o_ty; rewrite (int_conversion var x Hx).
        destruct op; destruct x; try discriminate; simpl in S |- *; rewrite ?S; reflexivity.
Qed.

(** [cca += std::cw<3u>] with [cca] a [constexpr_wrapper<Aaaargh{}>] (the
    [const] member [operator+=] of [Aaaargh]), [std::cw<1> + std::cw<2>]
    and [-std::cw<1>]. *)
Lemma operators_on_constants_witness :
  resolve_binop test_classes VarB BAddAssign (cwop VarB Aaaargh) (cwop VarB (VInt UInt 3)) =
    Wrapped (cw_of VarB (VInt Int 4)) /\
  resolve_binop test_classes VarB BAdd (cwop VarB (VInt Int 1)) (cwop VarB (VInt Int 2)) =
    Wrapped (cw_of VarB (VInt Int 3)) /\
  resolve_unop test_classes test_objects VarA UNeg (cwop VarA (VInt Int 1)) =
    Wrapped (cw_of VarA (VInt Int (-1))).
Proof.
  split; [|split].
  - rewrite (proj1 (proj1 (operators_on_constants test_classes test_objects VarB)
              Aaaargh (VInt UInt 3) eq_refl eq_refl eq_refl eq_refl) BAddAssign).
    reflexivity.
  - rewrite (proj1 (proj2 (operators_on_constants test_classes test_objects VarB)
              (VInt Int 1) (VInt Int 2) eq_refl eq_refl) BAdd).
    reflexivity.
  - rewrite (proj2 (proj2 (operators_on_constants test_classes test_objects VarA)
              (VInt Int 1) (VInt Int 2) eq_refl eq_refl) UNeg).
    reflexivity.
Defined.

(** C1 (counterexample). [std::cw<1> <=> std::cw<2>]: the native
    [1 <=> 2] is the constant [std::strong_ordering::less], but the friend
    [operator<=>] is dropped ([std::strong_ordering] is not structural) and
    the built-in [<=>] on the converted operands gives a plain
    [std::strong_ordering], not a [constexpr_wrapper]. *)
Lemma spaceship_not_wrapped :
  scalar_binop BCmp3 (VInt Int 1) (VInt Int 2) = RVal (VOrd Lt) /\
  resolve_binop test_classes VarB BCmp3 (cwop VarB (VInt Int 1)) (cwop VarB (VInt Int 2)) =
    Plain (VOrd Lt) /\
  resolve_binop test_classes VarA BCmp3 (cwop VarA (VInt Int 1)) (cwop VarA (VInt Int 2)) =
    Plain (VOrd Lt).
Proof. vm_compute; repeat split. Qed.


Lemma friend_viable_lhs classes var op w a b :
  constexpr_value classes var (o_ty a) = false -> friend_viable classes var op w a b = false.
Proof. intros H; unfold friend_viable, lhs_constexpr_wrapper; rewrite H; reflexivity. Qed.





(** C2 (code bug). [constexpr_wrapper<1, long>{} + std::cw<2>]:
    [__any_constexpr_wrapper<constexpr_wrapper<1, long>>] tests derivation
    from [constexpr_wrapper<1L, long>], a different type, and is false. So the
    left operand passes [__lhs_constexpr_wrapper] for every [This], and both
    the friend of [constexpr_wrapper<1, long>] and the one of
    [constexpr_wrapper<2>] are viable: the call is ambiguous. With a class
    derived from [constexpr_wrapper<1>] on the left only one friend is
    viable. *)
Theorem explicit_value_type_ambiguous classes :
  constexpr_value classes VarB (TWrapper (VInt Int 1) (TInt Long)) = true /\
  any_constexpr_wrapper classes VarB (TWrapper (VInt Int 1) (TInt Long)) = false /\
  viable_friends classes VarB BAdd
      (mk_operand (TWrapper (VInt Int 1) (TInt Long)) (VInt Long 1)) (cwop VarB (VInt Int 2)) =
    [TWrapper (VInt Int 1) (TInt Long); cw_of VarB (VInt Int 2)] /\
  resolve_binop classes VarB BAdd
      (mk_operand (TWrapper (VInt Int 1) (TInt Long)) (VInt Long 1)) (cwop VarB (VInt Int 2)) =
    Ambiguous /\
  resolve_binop classes VarB BAdd
      (mk_operand (Derived (VInt Int 1)) (VInt Int 1)) (cwop VarB (VInt Int 8)) =
    Wrapped (cw_of VarB (VInt Int 9)).
Proof. repeat split; vm_compute; reflexivity. Qed.



(** A runtime integer on the left: [r += std::cw<1>] for a variable
    [int r = 2] is the built-in compound assignment, [2 , std::cw<1>] is
    the wrapper object [std::cw<1>], and [std::cw<1> += r] is ill-formed. *)
Example runtime_left_operand :
  resolve_binop test_classes VarB BAddAssign (lvar (VInt Int 2)) (cwop VarB (VInt Int 1)) =
    Plain (VInt Int 3) /\
  resolve_binop test_classes VarB BComma (rt (VInt Int 2)) (cwop VarB (VInt Int 1)) =
    Wrapped (cw_of VarB (VInt Int 1)) /\
  resolve_binop test_classes VarB BAddAssign (cwop VarB (VInt Int 1)) (lvar (VInt Int 2)) =
    IllFormed.
Proof. vm_compute; repeat split. Qed.


Lemma common_same k : common k k = promote k.
Proof. unfold common; rewrite ity_eqb_refl; reflexivity. Qed.

Lemma eq_same_type k z z' :
  in_range k z = true -> in_range k z' = true ->
  scalar_binop BEq (VInt k z) (VInt k z') = RVal (VBool (z =? z')).
Proof.
  intros H H'; cbn -[common wrap]; rewrite common_same.
  rewrite !wrap_id by (repeat apply in_range_promote; assumption); reflexivity.
Qed.

(** C6 (counterexample). [constexpr_wrapper<1, long>] and
    [constexpr_wrapper<1L, long>] are two valid, distinct types (the [auto]
    parameter is an [int] in one and a [long] in the other), although
    [1 == 1L] and the value type is [long] in both. *)
Lemma equal_values_distinct_types :
  scalar_binop BEq (VInt Int 1) (VInt Long 1) = RVal (VBool true) /\
  valid_type test_classes (TWrapper (VInt Int 1) (TInt Long)) = true /\
  valid_type test_classes (TWrapper (VInt Long 1) (TInt Long)) = true /\
  TWrapper (VInt Int 1) (TInt Long) <> TWrapper (VInt Long 1) (TInt Long) /\
  cty_eqb (TWrapper (VInt Int 1) (TInt Long)) (TWrapper (VInt Long 1) (TInt Long)) = false.
Proof. repeat split; try reflexivity; discriminate. Qed.

(** C6 (amended). For integer constants [x] and [y],
    [constexpr_wrapper<x, T>] and [constexpr_wrapper<y, U>] are the same type
    iff [x] and [y] have the same type, [x == y], and [T] is [U]; and
    [constexpr_t<x>] and [constexpr_t<y>] are the same type iff [x] and [y]
    have the same type and [x == y]. *)
Theorem wrapper_type_identity x y t u :
  int_value x = true -> int_value y = true ->
  (TWrapper x t = TWrapper y u <->
     type_of x = type_of y /\ scalar_binop BEq x y = RVal (VBool true) /\ t = u) /\
  (TConstT x = TConstT y <->
     type_of x = type_of y /\ scalar_binop BEq x y = RVal (VBool true)).
Proof.
  destruct x as [k z| | | | |]; try discriminate;
  destruct y as [k' z'| | | | |]; try discriminate; simpl int_value; intros Hx Hy.
  assert (Key : VInt k z = VInt k' z' <->
                TInt k = TInt k' /\ scalar_binop BEq (VInt k z) (VInt k' z') = RVal (VBool true)).
  { split.
    - intros H; injection H as <- <-; split; [reflexivity|].
      rewrite eq_same_type, Z.eqb_refl by assumption; reflexivity.
    - intros [H E]; injection H as <-.
      rewrite eq_same_type in E by assumption; injection E as E.
      apply Z.eqb_eq in E; subst; reflexivity. }
  simpl type_of; split; split.
  - intros H; injection H as <- <- <-.
    destruct (proj1 Key eq_refl) as [Ht Eq]; auto.
  - intros (Ht & Eq & <-); rewrite (proj2 Key (conj Ht Eq)); reflexivity.
  - intros H; injection H as <- <-; apply Key; reflexivity.
  - intros (Ht & Eq); rewrite (proj2 Key (conj Ht Eq)); reflexivity.
Qed.

Lemma wrapper_type_identity_witness :
  TWrapper (VInt Int 1) (TInt Long) = TWrapper (VInt Int 1) (TInt Long) <->
    type_of (VInt Int 1) = type_of (VInt Int 1) /\
    scalar_binop BEq (VInt Int 1) (VInt Int 1) = RVal (VBool true) /\ TInt Long = TInt Long.
Proof.
  exact (proj1 (wrapper_type_identity (VInt Int 1) (VInt Int 1) (TInt Long) (TInt Long)
                  eq_refl eq_refl)).
Defined.

(** C7 (counterexample). [constexpr_t<Test{}>->value] is ill-formed
    (variant A has no fallback to the address of the value), while
    [Test{}.value] is [1]; for a pointer constant [&t], [t.value] is [1] but
    [std::cw<&t>->value] is ill-formed in variant B ([std::addressof] of the
    prvalue [_Xp]); and for a class [Proxy] whose [operator->] returns a
    [Holder] object, [Proxy{}->value] is [1] (through [Holder]'s
    [operator->]), and so is [constexpr_t<Proxy{}>->value], but
    [std::cw<Proxy{}>->value] is ill-formed: the [const auto*] return type
    of variant B's [operator->] is not deduced from a [Holder]. *)
Lemma arrow_without_fallback :
  member_of (Test 1) "value" = Some 1 /\
  wrapper_member test_classes test_objects VarA (cw_of VarA (Test 1)) "value" = None /\
  wrapper_member test_classes test_objects VarB (cw_of VarB (Test 1)) "value" = Some 1 /\
  direct_arrow_member test_classes test_objects (VPtr (TClass "Test") "t") "value" = Some 1 /\
  wrapper_member test_classes test_objects VarB (cw_of VarB (VPtr (TClass "Test") "t")) "value" =
    None /\
  direct_arrow_member test_classes test_objects Proxy "value" = Some 1 /\
  wrapper_member test_classes test_objects VarA (cw_of VarA Proxy) "value" = Some 1 /\
  wrapper_member test_classes test_objects VarB (cw_of VarB Proxy) "value" = None.
Proof. vm_compute; repeat split. Qed.

(** C7 (amended). For a class value [x] whose [operator->] returns a
    pointer, [w->m] is [x->m] in both variants. For a class value [x] whose
    [operator->] returns something else (a proxy object), [w->m] is [x->m]
    in variant A and ill-formed in variant B. For a class value [x] without
    [operator->], [w->m] is [x.m] in variant B and ill-formed in variant A.
    For a non-class value [x] (a pointer among them) [w->m] is ill-formed in
    both variants. *)
Theorem arrow_unwraps classes objects var c fs ci m :
  classes c = Some ci ->
  wrapper_member classes objects var (cw_of var (VObj c fs)) m =
    match cs_arrow ci, var with
    | Some _, VarA => direct_arrow_member classes objects (VObj c fs) m
    | Some f, VarB =>
        if is_pointer (f (VObj c fs)) then direct_arrow_member classes objects (VObj c fs) m
        else None
    | None, VarB => member_of (VObj c fs) m
    | None, VarA => None
    end /\
  (forall x, is_class_value x = false -> wrapper_member classes objects var (cw_of var x) m = None).
Proof.
  intros Hc; split.
  - unfold wrapper_member, arrow, direct_arrow_member; rewrite int_param, Hc.
    cbn [deref_member]; rewrite Hc.
    destruct (cs_arrow ci) as [f|]; destruct var; try reflexivity.
    destruct (is_pointer (f (VObj c fs))); reflexivity.
  - intros x Hx; unfold wrapper_member, arrow; rewrite int_param.
    destruct x; try discriminate; reflexivity.
Qed.

Lemma arrow_unwraps_witness :
  wrapper_member test_classes test_objects VarB (cw_of VarB Holder) "value" =
    direct_arrow_member test_classes test_objects Holder "value".
Proof.
  exact (proj1 (arrow_unwraps test_classes test_objects VarB "Holder" [] holder_info "value"
                  eq_refl)).
Defined.

(** C8. Arguments that are all [constexpr_value]s: when [value(args::value...)]
    (resp. [value[args::value...]]) is a constant [r] of a type a wrapper
    can hold, the call (resp. subscript) is the wrapper of [r]. In variant B
    a call without arguments on a [value] that cannot be called without
    arguments is [value] itself. *)
Theorem call_subscript_constexpr classes var w v args vs r :
  static_value w = Some v ->
  forallb (fun a => constexpr_value classes var (o_ty a)) args = true ->
  statics args = Some vs ->
  valid_type classes (cw_of var r) = true ->
  (invoke classes v vs = RVal r -> call_op classes var w args = Wrapped (cw_of var r)) /\
  (subscript classes v vs = RVal r -> subscript_op classes var w args = Wrapped (cw_of var r)) /\
  (invoke classes v [] = RIll -> call_op classes VarB w [] = Plain v).
Proof.
  intros Hw Hall Hs Hr; unfold call_op, subscript_op; rewrite Hw.
  split; [|split]; intros H.
  - rewrite Hall, Hs, H, Hr; reflexivity.
  - rewrite Hall, Hs, H, Hr; reflexivity.
  - simpl; rewrite H; reflexivity.
Qed.

Lemma call_subscript_constexpr_witness :
  call_op test_classes VarB (cw_of VarB (Test 1)) [cwop VarB (VInt Int 1); cwop VarB (VInt Int 2)] =
    Wrapped (cw_of VarB (VInt Int 4)) /\
  subscript_op test_classes VarB (cw_of VarB (Test 1))
      [cwop VarB (VInt Int 1); cwop VarB (VInt Int 2)] =
    Wrapped (cw_of VarB (VInt Int 4)) /\
  call_op test_classes VarB (cw_of VarB (VInt Int 7)) [] = Plain (VInt Int 7).
Proof.
  split; [|split].
  - apply (call_subscript_constexpr test_classes VarB (cw_of VarB (Test 1)) (Test 1)
             [cwop VarB (VInt Int 1); cwop VarB (VInt Int 2)] [VInt Int 1; VInt Int 2]
             (VInt Int 4)); reflexivity.
  - apply (call_subscript_constexpr test_classes VarB (cw_of VarB (Test 1)) (Test 1)
             [cwop VarB (VInt Int 1); cwop VarB (VInt Int 2)] [VInt Int 1; VInt Int 2]
             (VInt Int 4)); reflexivity.
  - apply (call_subscript_constexpr test_classes VarB (cw_of VarB (VInt Int 7)) (VInt Int 7)
             [] [] (VInt Int 7)); reflexivity.
Defined.

(** C9. The conversion [operator value_type()] of [constexpr_wrapper<x>] and
    of [constexpr_t<x>] gives back [x] for every well-formed value [x]. *)
Theorem conversion_round_trip var x :
  value_ok x = true -> conversion (cw_of var x) = Some x.
Proof.
  intros Hx; destruct var; [reflexivity|]; simpl.
  destruct x as [k z|b|c|t o|y|c fs]; simpl.
  - rewrite wrap_id by exact Hx; reflexivity.
  - reflexivity.
  - reflexivity.
  - rewrite cty_eqb_refl; reflexivity.
  - rewrite cty_eqb_refl; reflexivity.
  - rewrite String.eqb_refl; reflexivity.
Qed.

Lemma conversion_round_trip_witness :
  conversion (cw_of VarB (VInt Int 5)) = Some (VInt Int 5) /\
  conversion (cw_of VarA (Test 1)) = Some (Test 1).
Proof.
  split; apply conversion_round_trip; reflexivity.
Defined.

End ProtocolFacts.

Module LiteralExtras.
Import CwLiteral LiteralFacts.

Lemma to_unsigned_range z : 0 <= to_unsigned z < 2 ^ 32.
Proof. unfold to_unsigned; apply Z.mod_pos_bound; lia. Qed.

Lemma nextdigit_nonneg base c : 0 <= cw_nextdigit base c.
Proof.
  unfold cw_nextdigit.
  destruct (base =? 16); [destruct (_ >=? 97); [|destruct (_ >=? 65)]|];
    apply to_unsigned_range.
Qed.

(** X2. The accumulator of [__cw_parse] never leaves the range of
    [unsigned long long]: its two guards stop before [__x * __base] or
    [__x + __nextdigit] could exceed [ULLONG_MAX], so no step wraps, for any
    characters and any base of at least 1. *)
Theorem accumulate_bounded base x ds :
  1 <= base -> 0 <= x <= ull_max -> 0 <= cw_accumulate base x ds <= ull_max.
Proof.
  pose proof ull_max_pos as Hm.
  revert x; induction ds as [|c ds IH]; intros x Hb Hx; [exact Hx|].
  rewrite cw_accumulate_cons.
  pose proof (nextdigit_nonneg base c) as Hd.
  assert (Hq : base * (ull_max / base) <= ull_max) by (apply Z.mul_div_le; lia).
  destruct (Z.gtb_spec x (ull_max / base)) as [H1|H1]; [lia|].
  destruct (Z.gtb_spec (x * base) (ull_max - cw_nextdigit base c)) as [H2|H2]; [lia|].
  apply IH; [exact Hb|]. split; [nia | lia].
Qed.

Lemma accumulate_bounded_witness :
  1 <= 16 /\ 0 <= 0 <= ull_max /\
  0 <= cw_accumulate 16 0 (list_ascii_of_string "FFFFFFFFFFFFFFFFF") <= ull_max.
Proof.
  split; [lia|]. split; [split; [lia | apply Z.lt_le_incl, ull_max_pos]|].
  apply accumulate_bounded; [lia | split; [lia | apply Z.lt_le_incl, ull_max_pos]].
Defined.

(** X3. For digits below the base, the accumulator returns 0 exactly when
    the digit string has value 0 or a value above [ULLONG_MAX]: zero and
    overflow give the same result. *)
Theorem accumulate_zero_iff base ds :
  2 <= base -> (forall c, In c ds -> 0 <= cw_nextdigit base c < base) ->
  (cw_accumulate base 0 ds = 0 <->
   horner (cw_nextdigit base) base 0 ds = 0 \/ ull_max < horner (cw_nextdigit base) base 0 ds).
Proof.
  intros Hb Hd. pose proof ull_max_pos as Hm.
  rewrite (cw_accumulate_spec base 0 ds Hb ltac:(lia) Hd); cbv zeta.
  destruct (Z.leb_spec (horner (cw_nextdigit base) base 0 ds) ull_max); lia.
Qed.

Lemma accumulate_zero_iff_witness :
  (2 <= 10 /\ (forall c, In c (list_ascii_of_string "00") -> 0 <= cw_nextdigit 10 c < 10)) /\
  (cw_accumulate 10 0 (list_ascii_of_string "00") = 0 <->
   horner (cw_nextdigit 10) 10 0 (list_ascii_of_string "00") = 0 \/
   ull_max < horner (cw_nextdigit 10) 10 0 (list_ascii_of_string "00")).
Proof.
  assert (H : forall c, In c (list_ascii_of_string "00") -> 0 <= cw_nextdigit 10 c < 10).
  { intros c Hc; simpl in Hc; destruct Hc as [<-|[<-|[]]]; vm_compute; split; congruence. }
  split; [split; [lia | exact H]|].
  exact (accumulate_zero_iff 10 (list_ascii_of_string "00") ltac:(lia) H).
Defined.

Ltac ladder_limits :=
  change (ity_max SChar) with 127 in *; change (ity_max Short) with 32767 in *;
  change (ity_max Int) with 2147483647 in *;
  change (ity_max Long) with 9223372036854775807 in *;
  change (ity_max LongLong) with 9223372036854775807 in *;
  change (ity_max ULongLong) with 18446744073709551615 in *;
  change (ity_min SChar) with (-128) in *; change (ity_min Short) with (-32768) in *;
  change (ity_min Int) with (-2147483648) in *;
  change (ity_min Long) with (-9223372036854775808) in *;
  change (ity_min LongLong) with (-9223372036854775808) in *;
  change (ity_min ULongLong) with 0 in *.

(** X4. The value of the literal fits in the type the [if constexpr] ladder
    of [__cw_parse] chooses for it, for every [__x] of [unsigned long long]. *)
Theorem ladder_fits x :
  0 <= x <= ull_max -> ity_min (cw_ladder x) <= x <= ity_max (cw_ladder x).
Proof.
  unfold ull_max, cw_ladder; intros H; ladder_limits.
  repeat match goal with |- context [if ?b then _ else _] => destruct b eqn:? end;
    rewrite ?Z.leb_le, ?Z.leb_gt in *; ladder_limits; lia.
Qed.

(** X5. The ladder chooses the narrowest type: for a nonnegative [__x] that
    fits in one of [signed char], [short], [int], [long] and [long long], the
    chosen type is no wider than that one. *)
Theorem ladder_smallest x k :
  0 <= x -> In k [SChar; Short; Int; Long; LongLong] -> x <= ity_max k ->
  ity_bits (cw_ladder x) <= ity_bits k.
Proof.
  unfold cw_ladder; intros H Hk Hx.
  simpl in Hk; destruct Hk as [<-|[<-|[<-|[<-|[<-|[]]]]]]; ladder_limits;
  repeat match goal with |- context [if ?b then _ else _] => destruct b eqn:? end;
    rewrite ?Z.leb_le, ?Z.leb_gt in *; ladder_limits; simpl; lia.
Qed.

(** X6. The ladder chooses an unsigned type ([unsigned long long]) exactly
    for the values above [LLONG_MAX]. *)
Theorem ladder_unsigned x : ity_signed (cw_ladder x) = false <-> ity_max LongLong < x.
Proof.
  unfold cw_ladder; ladder_limits.
  repeat match goal with |- context [if ?b then _ else _] => destruct b eqn:? end;
    rewrite ?Z.leb_le, ?Z.leb_gt in *; simpl; split; intros; lia || discriminate || reflexivity.
Qed.


Lemma ladder_fits_witness :
  0 <= 128 <= ull_max /\ ity_min (cw_ladder 128) <= 128 <= ity_max (cw_ladder 128).
Proof.
  assert (H : 0 <= 128 <= ull_max) by (unfold ull_max; ladder_limits; lia).
  split; [exact H | exact (ladder_fits 128 H)].
Defined.

Lemma ladder_smallest_witness :
  (0 <= 40000 /\ In Int [SChar; Short; Int; Long; LongLong] /\ 40000 <= ity_max Int) /\
  ity_bits (cw_ladder 40000) <= ity_bits Int.
Proof.
  assert (H1 : In Int [SChar; Short; Int; Long; LongLong]) by (simpl; tauto).
  assert (H2 : 40000 <= ity_max Int) by (ladder_limits; lia).
  split; [split; [lia | split; [exact H1 | exact H2]]|].
  exact (ladder_smallest 40000 Int ltac:(lia) H1 H2).
Defined.

Lemma prepare_hex X ds c :
  is_x X = true -> is_digit_sep c = false ->
  cw_prepare_array ("0"%char :: X :: ds ++ [c]) =
    "0"%char :: X :: cw_prepare_array ds ++ [c].
Proof.
  intros HX Hc.
  rewrite strip_cons_digit by reflexivity.
  rewrite strip_cons_digit by (apply is_x_not_sep; exact HX).
  rewrite strip_app; unfold cw_prepare_array at 2; simpl; rewrite Hc; reflexivity.
Qed.

(** X7. For a hexadecimal pack [0x...] or [0X...], [__end] stops before
    the last character, so [__cw_parse] gives the same result whatever that
    last (non-separator) character is. *)
Theorem hex_last_char_ignored X ds c c' :
  is_x X = true -> is_digit_sep c = false -> is_digit_sep c' = false ->
  cw_parse ("0"%char :: X :: ds ++ [c]) = cw_parse ("0"%char :: X :: ds ++ [c']).
Proof.
  intros HX Hc Hc'. unfold cw_parse.
  rewrite (prepare_hex X ds c HX Hc), (prepare_hex X ds c' HX Hc').
  assert (Hb : forall e, cw_base ("0"%char :: X :: cw_prepare_array ds ++ [e]) = 16).
  { intros e; unfold cw_base.
    destruct (cw_prepare_array ds) as [|d r]; simpl;
      unfold is_x in HX; apply orb_true_iff in HX as [HX|HX];
      apply Ascii.eqb_eq in HX; subst X; reflexivity. }
  rewrite !Hb.
  assert (Hr : forall e, cw_range ("0"%char :: X :: cw_prepare_array ds ++ [e]) 16 =
                         cw_prepare_array ds).
  { intros e; unfold cw_range; simpl; apply removelast_last. }
  rewrite !Hr.
  assert (Hl : forall e, List.length ("0"%char :: X :: cw_prepare_array ds ++ [e]) =
                         (3 + List.length (cw_prepare_array ds))%nat).
  { intros e; simpl; rewrite length_app; simpl; lia. }
  unfold cw_checks; rewrite !Hl.
  destruct (forallb _ _), (Nat.eqb _ 1), (cw_accumulate _ _ _ =? 0); try reflexivity;
    unfold cw_result; simpl chars_eqb; rewrite ?andb_false_r; reflexivity.
Qed.

Lemma hex_last_char_ignored_witness :
  (is_x "x" = true /\ is_digit_sep "c" = false /\ is_digit_sep "F" = false) /\
  cw_parse (list_ascii_of_string "0x1Fc") = cw_parse (list_ascii_of_string "0x1FF").
Proof.
  split; [split; [reflexivity | split; reflexivity]|].
  exact (hex_last_char_ignored "x" ["1"%char; "F"%char] "c" "F" eq_refl eq_refl eq_refl).
Defined.




End LiteralExtras.

Module ProtocolExtras.
Import Protocol ProtocolFacts.

(** X13. The unary operators apply to the template argument [_Yp = _Xp],
    not to [value]: on [constexpr_wrapper<X, T>] with an integer constant [X]
    they give what they give on [std::cw<X>] whenever the operation on [X] is
    a constant, whatever [T] is. *)
Theorem unary_uses_template_argument classes objects op x t v r :
  int_value x = true -> scalar_unop objects op x = RVal r ->
  resolve_unop classes objects VarB op (mk_operand (TWrapper x t) v) =
  resolve_unop classes objects VarB op (cwop VarB x).
Proof.
  intros Hx H. unfold resolve_unop; simpl o_ty; cbn [bases find is_wrapper param_value].
  assert (Hn : native_unop classes objects op x = scalar_unop objects op x)
    by (destruct x; try discriminate; reflexivity).
  rewrite Hn, H, (valid_scalar classes VarB r (scalar_unop_ok objects op x r Hx H)).
  rewrite (unop_structural classes objects op x r Hx H); reflexivity.
Qed.

Lemma unary_uses_template_argument_witness :
  resolve_unop test_classes test_objects VarB UNeg
    (mk_operand (TWrapper (VInt Int 1) (TInt Long)) (VInt Long 1)) =
  Wrapped (cw_of VarB (VInt Int (-1))).
Proof.
  rewrite (unary_uses_template_argument test_classes test_objects UNeg (VInt Int 1) (TInt Long)
             (VInt Long 1) (VInt Int (-1)) eq_refl eq_refl).
  reflexivity.
Defined.

End ProtocolExtras.
